(** * Adaptive question delivery and progress tracking (app/qna/utils.py)

    A shallow embedding of the question-and-answer core of the backend:
    the answer evaluator, the progress updater, the question selector,
    the recommendation engine and the response formatter, over a model of
    the document store they talk to. *)

From Stdlib Require Import ZArith QArith Qpower Lia Lqa Ascii String DecimalString.
From stdpp Require Import base option list gmap strings fin_maps sorting.

Local Open Scope string_scope.
Local Open Scope list_scope.

(** ** Stored values

    The documents of the store and the JSON bodies of the requests hold
    values of these shapes.  Numbers are integers; an ObjectId is kept
    as its canonical string form (what [str] prints), an embedded
    document as its ordered list of fields. *)

#[local] Set Warnings "-register-all".

Inductive value : Type :=
| VNull
| VBool (b : bool)
| VInt (n : Z)
| VStr (s : string)
| VOid (o : string)
| VList (l : list value)
| VDoc (d : list (string * value)).

(** A top-level document (a Python [Dict]): a finite map from keys to values. *)
Abbreviation document := (gmap string value).

(** ** Built-ins of the platform

    [ObjectId(s)] parses an identifier and raises on a malformed one
    ([None]); [str], [str.lower] and [str.strip] are Python's.  The
    development is parametric in them. *)

Class Builtins := {
  ObjectId : string → option string;
  py_str : value → string;
  str_lower : string → string;
  str_strip : string → string
}.

(** Lookup in an embedded document ([dict.get]). *)
Fixpoint doc_get (k : string) (d : list (string * value)) : option value :=
  match d with
  | [] => None
  | (k', v) :: d' => if String.eqb k k' then Some v else doc_get k d'
  end.

(** ** The document store

    What the code relies on from the store: the comparison order of
    stored values, the match of a document against a filter, and
    [find], [find_one], [sort] and [limit] over a collection kept in its
    natural order. *)

(** Rank of a value's type in the store's comparison order. *)
Definition bson_rank (v : value) : nat :=
  match v with
  | VNull => 1
  | VInt _ => 2
  | VStr _ => 3
  | VDoc _ => 4
  | VList _ => 5
  | VOid _ => 7
  | VBool _ => 8
  end.

Definition lex (c : comparison) (k : comparison) : comparison :=
  match c with Eq => k | _ => c end.

(** Comparison of two values: by type rank first, then inside the type;
    strings and identifiers by their bytes, arrays element by element,
    embedded documents field by field (type, then name, then value). *)
Fixpoint bson_compare (a b : value) : comparison :=
  match a, b with
  | VNull, VNull => Eq
  | VBool x, VBool y => Bool.compare x y
  | VInt n, VInt m => (n ?= m)%Z
  | VStr s, VStr t => String.compare s t
  | VOid s, VOid t => String.compare s t
  | VList l, VList m =>
    (fix go (l m : list value) : comparison :=
       match l, m with
       | [], [] => Eq
       | [], _ :: _ => Lt
       | _ :: _, [] => Gt
       | x :: l', y :: m' => lex (bson_compare x y) (go l' m')
       end) l m
  | VDoc d, VDoc e =>
    (fix go (d e : list (string * value)) : comparison :=
       match d, e with
       | [], [] => Eq
       | [], _ :: _ => Lt
       | _ :: _, [] => Gt
       | (k, x) :: d', (k', y) :: e' =>
         lex (Nat.compare (bson_rank x) (bson_rank y))
           (lex (String.compare k k') (lex (bson_compare x y) (go d' e')))
       end) d e
  | _, _ => Nat.compare (bson_rank a) (bson_rank b)
  end.

Definition bson_eqb (a b : value) : bool :=
  match bson_compare a b with Eq => true | _ => false end.

(** The operators the code puts in its filters: [{"$ne": v}],
    [{"$nin": vs}], [{"$in": vs}], [{"$gt": v}], [{"$lte": v}]. *)
Inductive operator : Type :=
| Q_ne (v : value)
| Q_nin (vs : list value)
| Q_in (vs : list value)
| Q_gt (v : value)
| Q_lte (v : value).

(** A filter maps a field either to a value ([{field: v}]) or to a
    dictionary of operators ([{field: {"$ne": v, "$nin": vs}}]). *)
Inductive condition : Type :=
| Is (v : value)
| Ops (ops : list operator).

Abbreviation query_doc := (gmap string condition).

(** The values a field offers to a condition: the field itself and, for
    an array, each of its elements. *)
Definition candidates (fv : option value) : list value :=
  match fv with
  | None => []
  | Some (VList l) => VList l :: l
  | Some v => [v]
  end.

Definition is_null (v : value) : bool :=
  match v with VNull => true | _ => false end.

Definition is_missing (fv : option value) : bool :=
  match fv with None => true | Some _ => false end.

(** [{field: v}]: some candidate equals [v]; [null] also matches a
    missing field. *)
Definition eq_match (fv : option value) (v : value) : bool :=
  existsb (λ c, bson_eqb c v) (candidates fv) || (is_null v && is_missing fv).

Definition in_match (fv : option value) (vs : list value) : bool :=
  existsb (eq_match fv) vs.

Definition same_type (a b : value) : bool :=
  (bson_rank a =? bson_rank b)%nat.

(** Order operators compare a candidate only with an operand of its own
    type. *)
Definition gt_match (fv : option value) (v : value) : bool :=
  existsb (λ c, same_type c v &&
                match bson_compare c v with Gt => true | _ => false end)
          (candidates fv).

Definition lte_match (fv : option value) (v : value) : bool :=
  existsb (λ c, same_type c v &&
                match bson_compare c v with Gt => false | _ => true end)
          (candidates fv)
  || (is_null v && is_missing fv).

Definition op_match (fv : option value) (op : operator) : bool :=
  match op with
  | Q_ne v => negb (eq_match fv v)
  | Q_nin vs => negb (in_match fv vs)
  | Q_in vs => in_match fv vs
  | Q_gt v => gt_match fv v
  | Q_lte v => lte_match fv v
  end.

Definition cond_match (fv : option value) (c : condition) : bool :=
  match c with
  | Is v => eq_match fv v
  | Ops ops => forallb (op_match fv) ops
  end.

(** A document matches a filter when every condition of the filter
    holds of the document's field. *)
Definition matches (q : query_doc) (d : document) : bool :=
  forallb (λ kc, cond_match (d !! kc.1) kc.2) (map_to_list q).

(** [collection.find(q)], in natural order. *)
Definition find (coll : list document) (q : query_doc) : list document :=
  filter (λ d, matches q d) coll.

(** [collection.find_one(q)]: the first match in natural order. *)
Definition find_one (coll : list document) (q : query_doc) : option document :=
  head (find coll q).

(** The key of an ascending sort on a field: a missing field sorts as
    [null], an array by its least element, an empty array first. *)
Definition bson_min (a b : value) : value :=
  match bson_compare a b with Gt => b | _ => a end.

Definition sort_key (fv : option value) : option value :=
  match fv with
  | None => Some VNull
  | Some (VList []) => None
  | Some (VList (x :: l)) => Some (foldr bson_min x l)
  | Some v => Some v
  end.

Definition key_leb (a b : option value) : bool :=
  match a, b with
  | None, _ => true
  | Some _, None => false
  | Some x, Some y => match bson_compare x y with Gt => false | _ => true end
  end.

(** A stable sort by insertion: equal keys keep their order, as
    Python's [sorted] does. *)
Section StableSort.
Context {A : Type} (leb : A → A → bool).

Fixpoint insert_sorted (x : A) (l : list A) : list A :=
  match l with
  | [] => [x]
  | y :: l' => if leb x y then x :: y :: l' else y :: insert_sorted x l'
  end.

Definition stable_sort (l : list A) : list A := foldr insert_sorted [] l.

End StableSort.

(** [sort([("priority", 1)])]; ties are kept in natural order. *)
Definition priority_leb (a b : document) : bool :=
  key_leb (sort_key (a !! "priority")) (sort_key (b !! "priority")).

Definition sort_by_priority (l : list document) : list document :=
  stable_sort priority_leb l.

(** [cursor.limit(n)] followed by [to_list(length=n)], for the positive
    [n] of every call site. *)
Definition limit (n : nat) (l : list document) : list document := take n l.

(** ** Progress documents and the database *)

(** The entry of one skill: [{"mastery_level", "attempts", "correct"}].
    Mastery is kept as an exact rational. *)
Record skill_stats : Type := {
  mastery_level : Q;
  attempts : Z;
  correct : Z
}.

(** A progress document.  Both places that create one (lines 186 and
    251) write every key, so every key is present; [skills] keeps the
    insertion order of the Python dictionary.  The time stamps are left
    out. *)
Record progress_doc : Type := {
  completed_questions : list string;
  attempted_questions : list string;
  correct_answers : Z;
  total_attempts : Z;
  skills : list (string * skill_stats)
}.

Definition new_progress : progress_doc :=
  {| completed_questions := [];
     attempted_questions := [];
     correct_answers := 0;
     total_attempts := 0;
     skills := [] |}.

Record answer_record : Type := {
  ar_user_id : string;
  ar_question_id : string;
  ar_user_answer : value;
  ar_is_correct : bool;
  ar_time_taken : value;
  ar_score : value
}.

(** The three collections: the catalog in natural order, one progress
    document per user (keyed by [user_id]) and the answer log. *)
Record database : Type := {
  questions : list document;
  user_progress : gmap string progress_doc;
  user_answers : list answer_record
}.

Definition set_user_progress (db : database) (up : gmap string progress_doc) : database :=
  {| questions := questions db; user_progress := up; user_answers := user_answers db |}.

Definition insert_answer (db : database) (r : answer_record) : database :=
  {| questions := questions db; user_progress := user_progress db;
     user_answers := user_answers db ++ [r] |}.

(** Dictionary operations on [skills]. *)
Fixpoint skills_get (k : string) (d : list (string * skill_stats)) : option skill_stats :=
  match d with
  | [] => None
  | (k', e) :: d' => if String.eqb k k' then Some e else skills_get k d'
  end.

Fixpoint skills_set (k : string) (e : skill_stats) (d : list (string * skill_stats))
  : list (string * skill_stats) :=
  match d with
  | [] => [(k, e)]
  | (k', e') :: d' =>
    if String.eqb k k' then (k, e) :: d' else (k', e') :: skills_set k e d'
  end.

(** ** Calls that read or write the store

    A call takes the database and returns the database it leaves
    behind, with its result or [None] when it raised. *)
Definition M (A : Type) : Type := database → database * option A.

Definition ret {A} (a : A) : M A := λ db, (db, Some a).
Definition raise {A} : M A := λ db, (db, None).
Definition bind {A B} (m : M A) (k : A → M B) : M B :=
  λ db, match m db with
        | (db', Some a) => k a db'
        | (db', None) => (db', None)
        end.
Definition or_raise {A} (o : option A) : M A :=
  match o with Some a => ret a | None => raise end.
Definition read {A} (f : database → A) : M A := λ db, (db, Some (f db)).
Definition write (f : database → database) : M unit := λ db, (f db, Some tt).

Notation "'do' x <- m ; k" := (bind m (λ x, k))
  (at level 10, x name, m at level 100, k at level 200).

(** Python's [==] on the values above: booleans count as the integers
    0 and 1, dictionaries are equal whatever the order of their keys. *)
Fixpoint py_eq (a b : value) : bool :=
  match a, b with
  | VNull, VNull => true
  | VBool x, VBool y => Bool.eqb x y
  | VBool x, VInt n => (Z.b2z x =? n)%Z
  | VInt n, VBool y => (n =? Z.b2z y)%Z
  | VInt n, VInt m => (n =? m)%Z
  | VStr s, VStr t => String.eqb s t
  | VOid s, VOid t => String.eqb s t
  | VList l, VList m =>
    (fix go (l m : list value) : bool :=
       match l, m with
       | [], [] => true
       | x :: l', y :: m' => py_eq x y && go l' m'
       | _, _ => false
       end) l m
  | VDoc d, VDoc e =>
    (length d =? length e)%nat &&
    (fix go (d : list (string * value)) : bool :=
       match d with
       | [] => true
       | (k, x) :: d' =>
         match doc_get k e with Some y => py_eq x y | None => false end && go d'
       end) d
  | _, _ => false
  end.

(** The result dictionary of [save_user_answer]. *)
Record result : Type := {
  is_correct : bool;
  feedback : value;
  score : value
}.

Section Core.
Context `{Builtins}.

(** ** [get_question_by_id] (lines 6-17)

    Every exception is caught and turned into [None]. *)
Definition get_question_by_id (db : database) (question_id : string) : option document :=
  match ObjectId question_id with
  | Some object_id => find_one (questions db) {[ "_id" := Is (VOid object_id) ]}
  | None => None
  end.

(** ** The answer evaluator (lines 109-135 of [save_user_answer])

    [None] stands for an exception ([AttributeError] on a field of the
    wrong shape). *)
Definition evaluate_answer (question : document) (user_answer : value) : option result :=
  let is_correct := false in
  let feedback := VStr "Incorrect answer." in
  let score := VInt 0 in
  let question_type := default (VStr "multiple_choice") (question !! "type") in
  if py_eq question_type (VStr "multiple_choice") then
    let correct_answer := default VNull (question !! "correct_answer") in
    let is_correct := py_eq user_answer correct_answer in
    if is_correct then
      let feedback := VStr "Correct!" in
      let score := default (VInt 10) (question !! "points") in
      Some {| is_correct := is_correct; feedback := feedback; score := score |}
    else
      match default (VDoc []) (question !! "explanations") with
      | VDoc explanations =>
        let feedback :=
          default (VStr "Incorrect choice.") (doc_get (py_str user_answer) explanations) in
        Some {| is_correct := is_correct; feedback := feedback; score := score |}
      | _ => None
      end
  else if py_eq question_type (VStr "text") then
    match default (VStr "") (question !! "correct_answer") with
    | VStr correct_answer =>
      let correct_answer := str_strip (str_lower correct_answer) in
      let user_text := str_strip (str_lower (py_str user_answer)) in
      let is_correct := String.eqb user_text correct_answer in
      if is_correct then
        let feedback := VStr "Correct!" in
        let score := default (VInt 10) (question !! "points") in
        Some {| is_correct := is_correct; feedback := feedback; score := score |}
      else
        let feedback := default (VStr "Incorrect answer.") (question !! "explanation") in
        Some {| is_correct := is_correct; feedback := feedback; score := score |}
    | _ => None
    end
  else
    Some {| is_correct := is_correct; feedback := feedback; score := score |}.

(** ** [update_user_progress] (lines 169-240) *)

(** [question.get("skills", [])] as the sequence the [for] loop walks:
    the elements of a list, the characters of a string, the keys of a
    dictionary.  [None] when the loop or the final write raises (a value
    that is not iterable, a tag that is not a string). *)
Definition as_tag (v : value) : option string :=
  match v with VStr s => Some s | _ => None end.

Fixpoint chars (s : string) : list string :=
  match s with
  | EmptyString => []
  | String c s' => String c EmptyString :: chars s'
  end.

Definition question_skills (question : document) : option (list string) :=
  match default (VList []) (question !! "skills") with
  | VList l => mapM as_tag l
  | VStr s => Some (chars s)
  | VDoc d => Some (d.*1)
  | _ => None
  end.

(** One turn of the loop over the question's skills (lines 211-231). *)
Definition update_skill (is_correct : bool) (skills : list (string * skill_stats))
    (skill : string) : list (string * skill_stats) :=
  let skills :=
    match skills_get skill skills with
    | None => skills_set skill {| mastery_level := 0; attempts := 0; correct := 0 |} skills
    | Some _ => skills
    end in
  let e := default {| mastery_level := 0; attempts := 0; correct := 0 |}
                   (skills_get skill skills) in
  let e := {| mastery_level := mastery_level e; attempts := attempts e + 1;
              correct := correct e |} in
  let e := if is_correct
           then {| mastery_level := mastery_level e; attempts := attempts e;
                   correct := correct e + 1 |}
           else e in
  let attempts_ := attempts e in
  let correct_ := correct e in
  let e :=
    if (0 <? attempts_)%Z then
      let mastery := ((inject_Z correct_ / inject_Z attempts_) * 100)%Q in
      let decay_factor := (9 # 10)%Q in
      let old_mastery := mastery_level e in
      let new_mastery := ((old_mastery * decay_factor) + (mastery * (1 - decay_factor)))%Q in
      {| mastery_level := new_mastery; attempts := attempts e; correct := correct e |}
    else e in
  skills_set skill e skills.

(** Lines 197-231 on the progress document itself. *)
Definition apply_answer (progress : progress_doc) (question_id : string)
    (skill_tags : list string) (is_correct : bool) : progress_doc :=
  let total_attempts_ := (total_attempts progress + 1)%Z in
  let attempted :=
    if decide (question_id ∈ attempted_questions progress)
    then attempted_questions progress
    else attempted_questions progress ++ [question_id] in
  let correct_answers_ :=
    if is_correct then (correct_answers progress + 1)%Z else correct_answers progress in
  let completed :=
    if is_correct then
      if decide (question_id ∈ completed_questions progress)
      then completed_questions progress
      else completed_questions progress ++ [question_id]
    else completed_questions progress in
  {| completed_questions := completed;
     attempted_questions := attempted;
     correct_answers := correct_answers_;
     total_attempts := total_attempts_;
     skills := foldl (update_skill is_correct) (skills progress) skill_tags |}.

(** The stored document of a user, or the fresh one of lines 186-195. *)
Definition progress_of (db : database) (user_object_id : string) : progress_doc :=
  default new_progress (user_progress db !! user_object_id).

Definition update_user_progress (user_id question_id : string) (question : document)
    (is_correct : bool) : M unit :=
  do user_object_id <- or_raise (ObjectId user_id);
  do progress <- read (λ db, progress_of db user_object_id);
  do skill_tags <- or_raise (question_skills question);
  let progress := apply_answer progress question_id skill_tags is_correct in
  write (λ db, set_user_progress db (<[user_object_id := progress]> (user_progress db))).

(** ** [save_user_answer] (lines 89-167) *)
Definition save_user_answer (user_id question_id : string) (user_answer : value)
    (time_taken : value) : M result :=
  do user_object_id <- or_raise (ObjectId user_id);
  do question_object_id <- or_raise (ObjectId question_id);
  do question <- read (λ db, find_one (questions db) {[ "_id" := Is (VOid question_object_id) ]});
  match question with
  | None => raise
  | Some question =>
    if (size question =? 0)%nat then raise else
    do r <- or_raise (evaluate_answer question user_answer);
    let answer_record :=
      {| ar_user_id := user_object_id;
         ar_question_id := question_object_id;
         ar_user_answer := user_answer;
         ar_is_correct := is_correct r;
         ar_time_taken := time_taken;
         ar_score := score r |} in
    do _ <- write (λ db, insert_answer db answer_record);
    do _ <- update_user_progress user_id question_id question (is_correct r);
    ret r
  end.

(** ** [get_user_progress] (lines 242-263) *)
Definition get_user_progress (user_id : string) : M progress_doc :=
  do user_object_id <- or_raise (ObjectId user_id);
  do stored <- read (λ db, user_progress db !! user_object_id);
  match stored with
  | Some progress => ret progress
  | None =>
    let progress := new_progress in
    do _ <- write (λ db, set_user_progress db (<[user_object_id := progress]> (user_progress db)));
    ret progress
  end.

(** ** [get_next_questions] (lines 19-87) *)

(** [if difficulty: query["difficulty"] = difficulty]: an absent or empty
    filter adds nothing. *)
Definition with_filter (k : string) (v : option string) (q : query_doc) : query_doc :=
  match v with
  | Some s => if String.eqb s "" then q else <[k := Is (VStr s)]> q
  | None => q
  end.

(** [[ObjectId(q_id) for q_id in ids]] *)
Definition object_ids (ids : list string) : option (list value) :=
  mapM (λ q_id, VOid <$> ObjectId q_id) ids.

Definition mastery_leb (a b : string * skill_stats) : bool :=
  Qle_bool (mastery_level a.2) (mastery_level b.2).

(** [None] stands for an exception. *)
Definition get_next_questions (db : database) (user_id : string) (count : nat)
    (difficulty subject topic : option string) (user_progress : option progress_doc)
  : option (list document) :=
  let query : query_doc := ∅ in
  let query := with_filter "difficulty" difficulty query in
  let query := with_filter "subject" subject query in
  let query := with_filter "topic" topic query in
  query ← match user_progress with
           | Some p =>
             ids ← object_ids (completed_questions p);
             Some (<["_id" := Ops [Q_nin ids]]> query)
           | None => Some query
           end;
  let query :=
    match user_progress with
    | Some p =>
      let weak_skills := stable_sort mastery_leb (skills p) in
      match weak_skills with
      | (weakest_skill, _) :: _ => <["skills" := Is (VStr weakest_skill)]> query
      | [] => query
      end
    | None => query
    end in
  let questions_ := limit count (sort_by_priority (find (questions db) query)) in
  let '(query, questions_) :=
    if (length questions_ <? count)%nat then
      if decide (is_Some (query !! "topic")) then
        let query := delete "topic" query in
        let additional_questions :=
          limit (count - length questions_)
                (sort_by_priority (find (questions db) query)) in
        (query, questions_ ++ additional_questions)
      else (query, questions_)
    else (query, questions_) in
  if (length questions_ <? count)%nat then
    existing_ids ← mapM (λ q : document, q !! "_id") questions_;
    nin ← match user_progress with
           | Some p =>
             ids ← object_ids (completed_questions p);
             Some (existing_ids ++ ids)
           | None => Some existing_ids
           end;
    let random_query : query_doc := {[ "_id" := Ops [Q_nin nin] ]} in
    let additional_questions :=
      limit (count - length questions_) (find (questions db) random_query) in
    Some (questions_ ++ additional_questions)
  else Some questions_.

(** ** [recommend_next_question] (lines 304-357) *)

(** [not d] for an optional dictionary. *)
Definition falsy (d : option document) : bool :=
  match d with
  | None => true
  | Some d => (size d =? 0)%nat
  end.

(** The filter of the branch taken (lines 323-344); [None] when building
    it, or running it, raises. *)
Definition recommendation_query (question : document) (progress : progress_doc)
    (current : string) (correct_ : bool) : option query_doc :=
  if correct_ then
    ops ← (if decide (completed_questions progress = []) then Some [Q_ne (VOid current)]
           else ids ← object_ids (completed_questions progress);
                Some [Q_ne (VOid current); Q_nin ids]);
    Some ({[ "topic" := Is (default VNull (question !! "topic"));
             "difficulty" := Ops [Q_gt (default (VStr "medium") (question !! "difficulty"))];
             "_id" := Ops ops ]} : query_doc)
  else
    let query : query_doc :=
      {[ "topic" := Is (default VNull (question !! "topic"));
         "difficulty" := Ops [Q_lte (default (VStr "medium") (question !! "difficulty"))];
         "_id" := Ops [Q_ne (VOid current)] ]} in
    if decide (is_Some (question !! "skills")) then
      match default (VList []) (question !! "skills") with
      | VList l => Some (<["skills" := Ops [Q_in l]]> query)
      | _ => None
      end
    else Some query.

(** The fallback filter (lines 351-353). *)
Definition basic_query (progress : progress_doc) (current : string) : option query_doc :=
  ops ← (if decide (completed_questions progress = []) then Some [Q_ne (VOid current)]
         else ids ← object_ids (completed_questions progress);
              Some [Q_ne (VOid current); Q_nin ids]);
  Some ({[ "_id" := Ops ops ]} : query_doc).

Definition recommend_next_question (user_id current_question_id : string)
    (result : result) : M (option string) :=
  do question <- read (λ db, get_question_by_id db current_question_id);
  if falsy question then ret None else
  let question := default ∅ question in
  do progress <- get_user_progress user_id;
  do current <- or_raise (ObjectId current_question_id);
  do query <- or_raise (recommendation_query question progress current (is_correct result));
  do next_question <- read (λ db, find_one (questions db) query);
  do next_question <-
    (if falsy next_question then
       do basic <- or_raise (basic_query progress current);
       read (λ db, find_one (questions db) basic)
     else ret next_question);
  if falsy next_question then ret None else
  do id <- or_raise (default ∅ next_question !! "_id");
  ret (Some (py_str id)).

(** ** [format_question_response] (lines 359-381)

    [None] stands for the [KeyError] of [response["_id"]]. *)
Definition format_question_response (question : option document) : option document :=
  if falsy question then Some ∅ else
  let response := default ∅ question in
  id ← response !! "_id";
  let response := <["_id" := VStr (py_str id)]> response in
  let response :=
    if decide (is_Some (response !! "correct_answer"))
    then delete "correct_answer" response else response in
  let response :=
    if decide (is_Some (response !! "explanations"))
    then delete "explanations" response else response in
  Some response.

(** ** [GET /questions/{question_id}] (routes.py, lines 26-47)

    The answer is the payload or the status of the error.  The 404 is
    raised inside the [try] whose [except Exception] turns every
    exception into a 500. *)
Definition get_question (question_id : string) : M (document + nat) :=
  do question <- read (λ db, get_question_by_id db question_id);
  if falsy question then ret (inr 500%nat) else
  match format_question_response question with
  | Some payload => ret (inl payload)
  | None => ret (inr 500%nat)
  end.

End Core.

(** ** An instance of the built-ins

    Identifiers are 24 hexadecimal digits, printed in lower case; text is
    ASCII. *)
Module Ascii_builtins.

Definition between (lo hi : nat) (c : ascii) : bool :=
  let n := nat_of_ascii c in (lo <=? n)%nat && (n <=? hi)%nat.

Definition is_hex (c : ascii) : bool :=
  between 48 57 c || between 97 102 c || between 65 70 c.

Definition lower_char (c : ascii) : ascii :=
  if between 65 90 c then ascii_of_nat (nat_of_ascii c + 32) else c.

Fixpoint lower (s : string) : string :=
  match s with
  | EmptyString => EmptyString
  | String c s' => String (lower_char c) (lower s')
  end.

Fixpoint all_chars (p : ascii → bool) (s : string) : bool :=
  match s with
  | EmptyString => true
  | String c s' => p c && all_chars p s'
  end.

Definition parse_object_id (s : string) : option string :=
  if (String.length s =? 24)%nat && all_chars is_hex s then Some (lower s) else None.

(** The characters [str.strip] removes. *)
Definition is_space (c : ascii) : bool :=
  between 9 13 c || between 28 32 c.

Fixpoint lstrip (s : string) : string :=
  match s with
  | EmptyString => EmptyString
  | String c s' => if is_space c then lstrip s' else s
  end.

Fixpoint rstrip (s : string) : string :=
  match s with
  | EmptyString => EmptyString
  | String c s' =>
    match rstrip s' with
    | EmptyString => if is_space c then EmptyString else String c EmptyString
    | r => String c r
    end
  end.

Definition strip (s : string) : string := rstrip (lstrip s).

Definition str_of_Z (n : Z) : string :=
  DecimalString.NilZero.string_of_int (Z.to_int n).

Fixpoint join (sep : string) (l : list string) : string :=
  match l with
  | [] => ""
  | [x] => x
  | x :: l' => x +:+ sep +:+ join sep l'
  end.

(** [repr]; strings are quoted as they are (right for text without
    quotes, backslashes and control characters). *)
Fixpoint repr (v : value) : string :=
  match v with
  | VNull => "None"
  | VBool true => "True"
  | VBool false => "False"
  | VInt n => str_of_Z n
  | VStr s => "'" +:+ s +:+ "'"
  | VOid o => "ObjectId('" +:+ o +:+ "')"
  | VList l => "[" +:+ join ", " (map repr l) +:+ "]"
  | VDoc d =>
    "{" +:+ join ", " (map (λ kv : string * value, "'" +:+ kv.1 +:+ "': " +:+ repr kv.2) d) +:+ "}"
  end.

Definition str (v : value) : string :=
  match v with
  | VStr s => s
  | VOid o => o
  | _ => repr v
  end.

#[export] Instance ascii_builtins : Builtins :=
  {| ObjectId := parse_object_id;
     py_str := str;
     str_lower := lower;
     str_strip := strip |}.

End Ascii_builtins.
Import Ascii_builtins.

(** ** Sequences of submissions and the invariant of a progress document *)

(** The entry of a skill, or the fresh entry of lines 212-216. *)
Definition stats_of (p : progress_doc) (skill : string) : skill_stats :=
  default {| mastery_level := 0; attempts := 0; correct := 0 |}
          (skills_get skill (skills p)).

Definition stats_ok (e : skill_stats) : Prop :=
  (0 ≤ correct e ≤ attempts e)%Z ∧ (0 <= mastery_level e <= 100)%Q.

Definition progress_ok (p : progress_doc) : Prop :=
  (∀ x, x ∈ completed_questions p → x ∈ attempted_questions p)
  ∧ (0 ≤ correct_answers p ≤ total_attempts p)%Z
  ∧ Forall (λ ke : string * skill_stats, stats_ok ke.2) (skills p).

(** One call of [update_user_progress]. *)
Record call : Type := {
  c_user_id : string;
  c_question_id : string;
  c_question : document;
  c_is_correct : bool
}.

Definition run_call `{Builtins} (db : database) (c : call) : database :=
  (update_user_progress (c_user_id c) (c_question_id c) (c_question c)
                        (c_is_correct c) db).1.

Definition run_calls `{Builtins} (calls : list call) (db : database) : database :=
  foldl run_call db calls.

(** A store with a catalog and nothing recorded yet. *)
Definition fresh_db (catalog : list document) : database :=
  {| questions := catalog; user_progress := ∅; user_answers := [] |}.

(** The stores the application can be in: a catalog with nothing
    recorded, then any number of submitted answers. *)
Inductive reachable `{Builtins} : database → Prop :=
| reachable_fresh (catalog : list document) : reachable (fresh_db catalog)
| reachable_answer (db : database) (user_id question_id : string)
    (user_answer time_taken : value) :
    reachable db →
    reachable (save_user_answer user_id question_id user_answer time_taken db).1.

(** ** Sample documents

    The catalog entries and identifiers the examples below are run on. *)
Module Samples.

Definition text_question : document :=
  {[ "_id" := VOid "64b000000000000000000001";
     "type" := VStr "text";
     "text" := VStr "Capital of France?";
     "correct_answer" := VStr "Paris";
     "explanation" := VStr "It lies on the Seine.";
     "points" := VInt 5 ]}.


Definition essay_question : document :=
  {[ "_id" := VOid "64b000000000000000000002";
     "type" := VStr "essay";
     "correct_answer" := VStr "B";
     "explanations" := VDoc [("A", VStr "too broad")];
     "points" := VInt 10 ]}.

Definition incorrect_by_default : result :=
  {| is_correct := false; feedback := VStr "Incorrect answer."; score := VInt 0 |}.

Definition learner : string := "64a000000000000000000001".

Definition fractions_question : document :=
  {[ "_id" := VOid "64b000000000000000000003";
     "type" := VStr "multiple_choice";
     "topic" := VStr "algebra";
     "difficulty" := VStr "easy";
     "skills" := VList [VStr "fractions"];
     "correct_answer" := VStr "B";
     "points" := VInt 10 ]}.

(** A catalog of three questions with priorities 1, 2, 3. *)
Definition algebra_medium : document :=
  {[ "_id" := VOid "64b000000000000000000010";
     "type" := VStr "multiple_choice";
     "topic" := VStr "algebra";
     "difficulty" := VStr "medium";
     "skills" := VList [VStr "equations"];
     "correct_answer" := VStr "B";
     "priority" := VInt 1 ]}.

Definition geometry_easy : document :=
  {[ "_id" := VOid "64b000000000000000000011";
     "type" := VStr "multiple_choice";
     "topic" := VStr "geometry";
     "difficulty" := VStr "easy";
     "skills" := VList [VStr "angles"];
     "correct_answer" := VStr "A";
     "priority" := VInt 2 ]}.

Definition algebra_hard : document :=
  {[ "_id" := VOid "64b000000000000000000012";
     "type" := VStr "multiple_choice";
     "topic" := VStr "algebra";
     "difficulty" := VStr "hard";
     "skills" := VList [VStr "equations"];
     "correct_answer" := VStr "C";
     "priority" := VInt 3 ]}.

Definition catalog : list document := [algebra_medium; geometry_easy; algebra_hard].

Definition one_completed : progress_doc :=
  {| completed_questions := ["64b000000000000000000010"];
     attempted_questions := ["64b000000000000000000010"];
     correct_answers := 1;
     total_attempts := 1;
     skills := [] |}.

Definition correct_result : result :=
  {| is_correct := true; feedback := VStr "Correct!"; score := VInt 10 |}.

Definition incorrect_result : result :=
  {| is_correct := false; feedback := VStr "Incorrect choice."; score := VInt 0 |}.

End Samples.

(** ** [calculate_user_performance] (lines 265-302) *)

(** An entry of [skill_levels]: [{"skill", "mastery_level", "attempts"}]. *)
Record skill_level : Type := {
  sl_skill : string;
  sl_mastery_level : Q;
  sl_attempts : Z
}.

(** The dictionary the function returns. *)
Record performance : Type := {
  accuracy : Q;
  total_questions_attempted : Z;
  unique_questions_completed : nat;
  unique_questions_attempted : nat;
  strengths : list skill_level;
  weaknesses : list skill_level
}.

Definition skill_level_leb (a b : skill_level) : bool :=
  Qle_bool (sl_mastery_level a) (sl_mastery_level b).

(** Lines 271-302 on the progress document read. *)
Definition performance_of (progress : progress_doc) : performance :=
  let total_attempts_ := total_attempts progress in
  let correct_answers_ := correct_answers progress in
  let accuracy_ :=
    if (0 <? total_attempts_)%Z
    then ((inject_Z correct_answers_ / inject_Z total_attempts_) * 100)%Q
    else 0%Q in
  let skill_levels :=
    map (λ kd : string * skill_stats,
           {| sl_skill := kd.1;
              sl_mastery_level := mastery_level kd.2;
              sl_attempts := attempts kd.2 |})
        (skills progress) in
  let skill_levels := stable_sort skill_level_leb skill_levels in
  let strengths_ :=
    if (3 <? length skill_levels)%nat
    then drop (length skill_levels - 3) skill_levels
    else skill_levels in
  let weaknesses_ :=
    if (0 <? length skill_levels)%nat then take 3 skill_levels else [] in
  {| accuracy := accuracy_;
     total_questions_attempted := total_attempts_;
     unique_questions_completed := length (completed_questions progress);
     unique_questions_attempted := length (attempted_questions progress);
     strengths := strengths_;
     weaknesses := weaknesses_ |}.


(** ** The handlers of routes.py that call the functions above

    [user_id] stands for [current_user["_id"]].  An answer is the body
    or the status of the [HTTPException] raised; [None] is any other
    exception leaving the handler. *)


(** [GET /questions/next/{count}] (lines 51-92) *)
Definition get_stack_of_questions `{Builtins} (user_id : string) (count : Z)
    (difficulty subject topic : option string) : M (list document + nat) :=
  if ((count <? 1) || (10 <? count))%Z then ret (inr 400%nat) else
  do user_progress <- get_user_progress user_id;
  do questions_ <-
    (λ db, (db, get_next_questions db user_id (Z.to_nat count) difficulty subject topic
                  (Some user_progress)));
  match questions_ with
  | [] => ret (inr 404%nat)
  | _ =>
    do formatted_questions <-
      or_raise (mapM (λ q : document, format_question_response (Some q)) questions_);
    ret (inl formatted_questions)
  end.



(** ** More sample data *)
Module More_samples.



End More_samples.

(** ** The state of a tracked skill *)

(** A skill that has an entry has been attempted at least once; its
    mastery stays below 100. *)
Definition stats_tracked (e : skill_stats) : Prop :=
  (1 ≤ attempts e)%Z ∧ (0 ≤ correct e ≤ attempts e)%Z
  ∧ (0 <= mastery_level e < 100)%Q.



(** * Properties *)

(** ** The response formatter *)

Section Format_properties.
Context `{Builtins}.

Lemma format_lookup (q payload : document) (k : string) :
  format_question_response (Some q) = Some payload →
  payload !! k =
    if decide (k = "correct_answer" ∨ k = "explanations") then None
    else if decide (k = "_id") then VStr ∘ py_str <$> q !! "_id"
    else q !! k.
Proof.
  unfold format_question_response, falsy. simpl.
  destruct (size q =? 0)%nat eqn:Hsz.
  - intros [= <-]. apply Nat.eqb_eq, map_size_empty_inv in Hsz. subst q.
    rewrite !lookup_empty.
    destruct (decide (k = "correct_answer" ∨ k = "explanations")); [reflexivity|].
    destruct (decide (k = "_id")); reflexivity.
  - destruct (q !! "_id") as [i|] eqn:Hid; simpl; [|done].
    intros [= <-].
    set (r1 := <["_id" := VStr (py_str i)]> q).
    set (r2 := if decide (is_Some (r1 !! "correct_answer"))
               then delete "correct_answer" r1 else r1).
    assert (H1 : ∀ j, r2 !! j = if decide (j = "correct_answer") then None else r1 !! j).
    { intros j. unfold r2. destruct (decide (is_Some (r1 !! "correct_answer"))) as [Hs|Hn].
      - rewrite lookup_delete.
        destruct (decide ("correct_answer" = j)), (decide (j = "correct_answer")); congruence.
      - apply eq_None_not_Some in Hn. destruct (decide (j = "correct_answer")); congruence. }
    assert (H2 : ∀ j, (if decide (is_Some (r2 !! "explanations"))
                       then delete "explanations" r2 else r2) !! j
                      = if decide (j = "explanations") then None else r2 !! j).
    { intros j. destruct (decide (is_Some (r2 !! "explanations"))) as [Hs|Hn].
      - rewrite lookup_delete.
        destruct (decide ("explanations" = j)), (decide (j = "explanations")); congruence.
      - apply eq_None_not_Some in Hn. destruct (decide (j = "explanations")); congruence. }
    rewrite H2, H1. unfold r1. rewrite lookup_insert.
    destruct (decide (k = "explanations")) as [->|Hk1].
    { rewrite decide_True by auto. reflexivity. }
    destruct (decide (k = "correct_answer")) as [->|Hk2].
    { rewrite decide_True by auto. reflexivity. }
    destruct (decide (k = "correct_answer" ∨ k = "explanations")) as [[?|?]|_];
      [congruence..|].
    destruct (decide (k = "_id")) as [->|Hk3].
    + rewrite decide_True by reflexivity. reflexivity.
    + rewrite decide_False by congruence. reflexivity.
Qed.

Lemma format_stripped (question : option document) (payload : document) :
  format_question_response question = Some payload →
  payload !! "correct_answer" = None ∧ payload !! "explanations" = None.
Proof.
  destruct question as [q|].
  - intros Hf. split.
    + rewrite (format_lookup q payload _ Hf). rewrite decide_True by auto. reflexivity.
    + rewrite (format_lookup q payload _ Hf). rewrite decide_True by auto. reflexivity.
  - unfold format_question_response. simpl. intros [= <-].
    rewrite !lookup_empty. done.
Qed.

Lemma format_total (q : document) (i : value) :
  q !! "_id" = Some i → is_Some (format_question_response (Some q)).
Proof.
  intros Hid. unfold format_question_response, falsy. simpl.
  destruct (size q =? 0)%nat; [eauto|]. rewrite Hid. simpl. eauto.
Qed.

(** C8. The formatter never lets [correct_answer] or [explanations]
    through, it answers on every stored question (one with an [_id]),
    and [GET /questions/{id}] leaves the store as it found it, so that
    asking again gives the identical response. *)
Theorem get_question_repeatable_and_stripped :
  (∀ question payload,
     format_question_response question = Some payload →
     payload !! "correct_answer" = None ∧ payload !! "explanations" = None)
  ∧ (∀ q i, q !! "_id" = Some i → is_Some (format_question_response (Some q)))
  ∧ (∀ db question_id,
       ∃ r, get_question question_id db = (db, Some r)
            ∧ get_question question_id (get_question question_id db).1
              = get_question question_id db
            ∧ (∀ q i, get_question_by_id db question_id = Some q →
                      q !! "_id" = Some i →
                      ∃ payload, r = inl payload
                                 ∧ format_question_response (Some q) = Some payload)
            ∧ (∀ payload, r = inl payload →
                 payload !! "correct_answer" = None ∧ payload !! "explanations" = None)).
Proof.
  split; [exact format_stripped|]. split; [exact format_total|].
  intros db question_id.
  assert (Hget : ∃ r, get_question question_id db = (db, Some r)
                      ∧ (∀ payload, r = inl payload →
                           format_question_response (get_question_by_id db question_id)
                           = Some payload)
                      ∧ (∀ q i, get_question_by_id db question_id = Some q →
                           q !! "_id" = Some i → ∃ payload, r = inl payload)).
  { unfold get_question, bind, read, ret.
    destruct (get_question_by_id db question_id) as [q|] eqn:Hq; simpl.
    - destruct (size q =? 0)%nat eqn:Hsz.
      + eexists; split; [reflexivity|]. split; [discriminate|].
        intros q' i [= <-] Hi. apply Nat.eqb_eq, map_size_empty_inv in Hsz.
        subst q. rewrite lookup_empty in Hi. discriminate.
      + destruct (format_question_response (Some q)) as [payload|] eqn:Hf.
        * eexists; split; [reflexivity|]. split; [intros ? [= <-]; reflexivity|].
          intros; eauto.
        * eexists; split; [reflexivity|]. split; [discriminate|].
          intros q' i [= <-] Hi. destruct (format_total q i Hi) as [? Hs]. congruence.
    - eexists; split; [reflexivity|]. split; [discriminate|]. discriminate. }
  destruct Hget as (r & Hr & Hfmt & Hsome). exists r.
  split; [exact Hr|]. split; [rewrite Hr; simpl; exact Hr|]. split.
  - intros q i Hq Hi. destruct (Hsome q i Hq Hi) as [payload ->].
    exists payload. split; [reflexivity|]. rewrite <- Hq. apply Hfmt. reflexivity.
  - intros payload ->. eapply format_stripped, Hfmt. reflexivity.
Qed.

End Format_properties.

Section Format_frame.
Context `{Builtins}.


End Format_frame.


(** ** The answer evaluator *)

Lemma py_eq_str (t : value) (s : string) : py_eq t (VStr s) = true → t = VStr s.
Proof.
  destruct t; simpl; try discriminate.
  intros Heq. apply String.eqb_eq in Heq. congruence.
Qed.

Section Evaluator.
Context `{Builtins}.

(** C2, as the code has it.  A question whose [type] is present and is
    neither ["multiple_choice"] nor ["text"] enters neither branch: every
    answer, also one equal to [correct_answer], is marked incorrect with
    score 0 and the feedback ["Incorrect answer."]. *)
Theorem unknown_type_marked_incorrect (q : document) (t a : value) :
  q !! "type" = Some t →
  t ≠ VStr "multiple_choice" →
  t ≠ VStr "text" →
  evaluate_answer q a =
    Some {| is_correct := false; feedback := VStr "Incorrect answer."; score := VInt 0 |}.
Proof.
  intros Ht Hmc Htext. unfold evaluate_answer. rewrite Ht. simpl.
  destruct (py_eq t (VStr "multiple_choice")) eqn:E1.
  { apply py_eq_str in E1. contradiction. }
  destruct (py_eq t (VStr "text")) eqn:E2.
  { apply py_eq_str in E2. contradiction. }
  reflexivity.
Qed.

(** Only a question without a [type] takes the multiple-choice branch
    by default. *)
Lemma missing_type_is_multiple_choice (q : document) (a : value) :
  q !! "type" = None →
  (py_eq a (default VNull (q !! "correct_answer")) = true →
   evaluate_answer q a =
     Some {| is_correct := true; feedback := VStr "Correct!";
             score := default (VInt 10) (q !! "points") |})
  ∧ (py_eq a (default VNull (q !! "correct_answer")) = false →
     ∀ explanations, default (VDoc []) (q !! "explanations") = VDoc explanations →
     evaluate_answer q a =
       Some {| is_correct := false;
               feedback := default (VStr "Incorrect choice.")
                                   (doc_get (py_str a) explanations);
               score := VInt 0 |}).
Proof.
  intros Ht. unfold evaluate_answer. rewrite Ht. simpl. split.
  - intros ->. reflexivity.
  - intros -> explanations ->. reflexivity.
Qed.

End Evaluator.

Lemma unknown_type_marked_incorrect_witness :
  evaluate_answer Samples.essay_question (VStr "B") = Some Samples.incorrect_by_default.
Proof.
  apply (unknown_type_marked_incorrect Samples.essay_question (VStr "essay") (VStr "B")).
  - vm_compute. reflexivity.
  - discriminate.
  - discriminate.
Defined.

(** C2 as the specification words it fails: the sample question has the
    unrecognized type ["essay"], the answer ["B"] equals its
    [correct_answer], and the answer is not marked correct. *)
Lemma unknown_type_not_multiple_choice :
  ¬ (∀ (q : document) (t a : value),
       q !! "type" = Some t →
       t ≠ VStr "multiple_choice" →
       t ≠ VStr "text" →
       py_eq a (default VNull (q !! "correct_answer")) = true →
       ∃ r, evaluate_answer q a = Some r
            ∧ is_correct r = true
            ∧ score r = default (VInt 10) (q !! "points")).
Proof.
  intros Hclaim.
  destruct (Hclaim Samples.essay_question (VStr "essay") (VStr "B"))
    as (r & Hr & Hok & _).
  - vm_compute. reflexivity.
  - discriminate.
  - discriminate.
  - vm_compute. reflexivity.
  - vm_compute in Hr. injection Hr as <-. discriminate Hok.
Qed.

(** ** The scenarios of the specification, run on the sample data *)

Example scenario_correct_choice :
  let answered :=
    save_user_answer Samples.learner "64b000000000000000000003" (VStr "B") (VInt 0)
      (fresh_db [Samples.fractions_question]) in
  answered.2 = Some Samples.correct_result
  ∧ progress_of answered.1 Samples.learner
    = {| completed_questions := ["64b000000000000000000003"];
         attempted_questions := ["64b000000000000000000003"];
         correct_answers := 1;
         total_attempts := 1;
         skills := [("fractions",
                     {| mastery_level := (0 * (9 # 10) + 1 / 1 * 100 * (1 - (9 # 10)))%Q;
                        attempts := 1; correct := 1 |})] |}.
Proof. split; vm_compute; reflexivity. Qed.

Example scenario_wrong_choice :
  evaluate_answer (<["type" := VStr "multiple_choice"]> Samples.essay_question) (VStr "A")
  = Some {| is_correct := false; feedback := VStr "too broad"; score := VInt 0 |}.
Proof. vm_compute. reflexivity. Qed.

Example scenario_text_answer :
  evaluate_answer Samples.text_question (VStr "  PARIS ")
  = Some {| is_correct := true; feedback := VStr "Correct!"; score := VInt 5 |}.
Proof. vm_compute. reflexivity. Qed.

Example malformed_id_is_not_found :
  get_question_by_id (fresh_db Samples.catalog) "not-an-id" = None
  ∧ (get_question "not-an-id" (fresh_db Samples.catalog)).2 = Some (inr 500%nat).
Proof. split; vm_compute; reflexivity. Qed.

(** ** The progress updater *)

Lemma skills_get_set_eq k e d : skills_get k (skills_set k e d) = Some e.
Proof.
  induction d as [|[k' e'] d IH]; simpl.
  - rewrite String.eqb_refl. reflexivity.
  - destruct (String.eqb k k') eqn:E; simpl.
    + rewrite String.eqb_refl. reflexivity.
    + rewrite E. exact IH.
Qed.

Lemma skills_get_set_ne k k' e d :
  k' ≠ k → skills_get k' (skills_set k e d) = skills_get k' d.
Proof.
  intros Hne. induction d as [|[k2 e2] d IH]; simpl.
  - destruct (String.eqb k' k) eqn:E; [apply String.eqb_eq in E; contradiction|reflexivity].
  - destruct (String.eqb k k2) eqn:E; simpl.
    + apply String.eqb_eq in E. subst k2.
      destruct (String.eqb k' k) eqn:E'; [apply String.eqb_eq in E'; contradiction|].
      reflexivity.
    + destruct (String.eqb k' k2); [reflexivity|exact IH].
Qed.

Lemma skills_set_Forall (P : string * skill_stats → Prop) k e d :
  P (k, e) → Forall P d → Forall P (skills_set k e d).
Proof.
  intros He Hd. induction Hd as [|[k' e'] d Hx Hd IH]; simpl.
  - repeat constructor. exact He.
  - destruct (String.eqb k k'); constructor; auto.
Qed.

Lemma skills_get_Forall (P : skill_stats → Prop) k e d :
  Forall (λ ke : string * skill_stats, P ke.2) d → skills_get k d = Some e → P e.
Proof.
  induction 1 as [|[k' e'] d Hx Hd IH]; simpl; [discriminate|].
  destruct (String.eqb k k'); [intros [= <-]; exact Hx|exact IH].
Qed.

(** What one turn of the loop leaves in the entry of its skill. *)
Lemma update_skill_same (ok : bool) (d : list (string * skill_stats)) (skill : string) :
  let old := default {| mastery_level := 0; attempts := 0; correct := 0 |}
                     (skills_get skill d) in
  ∃ e, skills_get skill (update_skill ok d skill) = Some e
       ∧ attempts e = (attempts old + 1)%Z
       ∧ correct e = (correct old + if ok then 1 else 0)%Z
       ∧ mastery_level e =
           if (0 <? attempts old + 1)%Z
           then ((mastery_level old * (9 # 10))
                 + ((inject_Z (correct e) / inject_Z (attempts e)) * 100) * (1 - (9 # 10)))%Q
           else mastery_level old.
Proof.
  intros old. unfold update_skill.
  set (d1 := match skills_get skill d with
             | None => skills_set skill _ d
             | Some _ => d
             end).
  assert (Hd1 : default {| mastery_level := 0; attempts := 0; correct := 0 |}
                        (skills_get skill d1) = old).
  { unfold d1, old. destruct (skills_get skill d) as [e0|] eqn:E.
    - rewrite E. reflexivity.
    - rewrite skills_get_set_eq. reflexivity. }
  rewrite Hd1. eexists. split; [apply skills_get_set_eq|].
  destruct ok; simpl; destruct (0 <? attempts old + 1)%Z; simpl;
    repeat split; try reflexivity; rewrite ?Z.add_0_r; reflexivity.
Qed.

Lemma update_skill_other (ok : bool) (d : list (string * skill_stats)) (skill k : string) :
  k ≠ skill → skills_get k (update_skill ok d skill) = skills_get k d.
Proof.
  intros Hne. unfold update_skill. rewrite skills_get_set_ne by exact Hne.
  destruct (skills_get skill d); [reflexivity|].
  apply skills_get_set_ne. exact Hne.
Qed.

Lemma foldl_update_skill_other (ok : bool) (tags : list string) (d : list (string * skill_stats))
    (k : string) :
  k ∉ tags → skills_get k (foldl (update_skill ok) d tags) = skills_get k d.
Proof.
  revert d. induction tags as [|t tags IH]; intros d Hk; simpl; [reflexivity|].
  rewrite IH by (intros Hin; apply Hk; right; exact Hin).
  apply update_skill_other. intros ->. apply Hk. left.
Qed.
Lemma inject_Z_pos (a : Z) : (0 < a)%Z → (0 < inject_Z a)%Q.
Proof. intros Ha. unfold Qlt. simpl. lia. Qed.

Lemma accuracy_bounds (c a : Z) :
  (0 ≤ c ≤ a)%Z → (0 < a)%Z →
  (0 <= inject_Z c / inject_Z a <= 1)%Q.
Proof.
  intros [Hc Hca] Ha. pose proof (inject_Z_pos a Ha) as Ha'.
  split.
  - apply Qle_shift_div_l; [exact Ha'|]. rewrite Qmult_0_l.
    unfold Qle. simpl. lia.
  - apply Qle_shift_div_r; [exact Ha'|]. rewrite Qmult_1_l.
    unfold Qle. simpl. lia.
Qed.

Lemma blend_bounds (old x : Q) :
  (0 <= old <= 100)%Q → (0 <= x <= 1)%Q →
  (0 <= (old * (9 # 10)) + ((x * 100) * (1 - (9 # 10))) <= 100)%Q.
Proof. intros [? ?] [? ?]. split; lra. Qed.



Lemma update_skill_ok (ok : bool) (d : list (string * skill_stats)) (skill : string) :
  Forall (λ ke : string * skill_stats, stats_ok ke.2) d →
  Forall (λ ke : string * skill_stats, stats_ok ke.2) (update_skill ok d skill).
Proof.
  intros Hd.
  assert (Hzero : stats_ok {| mastery_level := 0; attempts := 0; correct := 0 |}).
  { split; simpl; [lia|split; lra]. }
  assert (Hold : stats_ok (default {| mastery_level := 0; attempts := 0; correct := 0 |}
                                   (skills_get skill d))).
  { destruct (skills_get skill d) as [e0|] eqn:E; simpl; [|exact Hzero].
    exact (skills_get_Forall stats_ok skill e0 d Hd E). }
  destruct (update_skill_same ok d skill) as (e & Hget & Ha & Hc & Hm).
  destruct Hold as [[Hc0 Hca] Hm0].
  assert (He : stats_ok e).
  { assert (Hpos : (0 < attempts e)%Z) by lia.
    assert (Hce : (0 ≤ correct e ≤ attempts e)%Z) by (destruct ok; lia).
    split; [exact Hce|]. rewrite Hm.
    replace (0 <? _)%Z with true by (symmetry; apply Z.ltb_lt; lia).
    apply blend_bounds; [exact Hm0|]. apply accuracy_bounds; assumption. }
  revert Hget. unfold update_skill.
  set (d1 := match skills_get skill d with
             | None => skills_set skill _ d
             | Some _ => d
             end).
  set (e1 := if (0 <? _)%Z then _ else _).
  rewrite skills_get_set_eq. intros [= ->].
  apply skills_set_Forall; [exact He|].
  unfold d1. destruct (skills_get skill d); [exact Hd|].
  apply skills_set_Forall; [exact Hzero|exact Hd].
Qed.

Lemma foldl_update_skill_ok (ok : bool) (tags : list string) (d : list (string * skill_stats)) :
  Forall (λ ke : string * skill_stats, stats_ok ke.2) d →
  Forall (λ ke : string * skill_stats, stats_ok ke.2) (foldl (update_skill ok) d tags).
Proof.
  revert d. induction tags as [|t ts IH]; intros d Hd; simpl; [exact Hd|].
  apply IH, update_skill_ok, Hd.
Qed.

Lemma new_progress_ok : progress_ok new_progress.
Proof.
  split; [intros x Hx; inversion Hx|]. split; [simpl; lia|constructor].
Qed.

Lemma apply_answer_ok (p : progress_doc) (question_id : string) (tags : list string)
    (ok : bool) :
  progress_ok p → progress_ok (apply_answer p question_id tags ok).
Proof.
  intros (Hsub & Hcnt & Hsk). unfold apply_answer. split; [|split]; simpl.
  - intros x Hx.
    assert (Hx' : x ∈ completed_questions p ∨ x = question_id).
    { destruct ok; [|left; exact Hx].
      destruct (decide (question_id ∈ completed_questions p)); [left; exact Hx|].
      apply elem_of_app in Hx. destruct Hx as [Hx|Hx]; [left; exact Hx|].
      right. apply list_elem_of_singleton in Hx. exact Hx. }
    destruct (decide (question_id ∈ attempted_questions p)) as [Hin|Hnin].
    + destruct Hx' as [Hx'| ->]; [apply Hsub, Hx'|exact Hin].
    + apply elem_of_app. destruct Hx' as [Hx'| ->]; [left; apply Hsub, Hx'|].
      right. apply list_elem_of_singleton. reflexivity.
  - destruct ok; lia.
  - apply foldl_update_skill_ok, Hsk.
Qed.

Ltac unfold_call := unfold bind, or_raise, read, write, ret, raise.

Section Updater.
Context `{Builtins}.

Lemma update_user_progress_returns (user_id uid question_id : string) (question : document)
    (ok : bool) (db : database) (tags : list string) :
  ObjectId user_id = Some uid →
  question_skills question = Some tags →
  update_user_progress user_id question_id question ok db =
    (set_user_progress db
       (<[uid := apply_answer (progress_of db uid) question_id tags ok]> (user_progress db)),
     Some tt).
Proof.
  intros Hu Ht. unfold update_user_progress. unfold_call.
  rewrite Hu. simpl. rewrite Ht. reflexivity.
Qed.

Lemma update_user_progress_raises (user_id question_id : string) (question : document)
    (ok : bool) (db : database) :
  ObjectId user_id = None ∨ question_skills question = None →
  update_user_progress user_id question_id question ok db = (db, None).
Proof.
  intros Hr. unfold update_user_progress. unfold_call.
  destruct (ObjectId user_id); [|reflexivity]. simpl.
  destruct Hr as [Hr|Hr]; [discriminate|]. rewrite Hr. reflexivity.
Qed.

Lemma progress_of_updated (db : database) (uid : string) (p : progress_doc) :
  progress_of (set_user_progress db (<[uid := p]> (user_progress db))) uid = p.
Proof. unfold progress_of. simpl. rewrite lookup_insert_eq. reflexivity. Qed.

(** C7. A call that returns leaves [total_attempts] one above what it
    was, keeps every attempted question and has the submitted one among
    them, whatever the correctness flag.  (The call returns when the
    user id parses and the question's skills are a sequence of tags; when
    it raises, the store is left as it was.) *)
Theorem update_user_progress_counts_attempt (user_id uid question_id : string)
    (question : document) (ok : bool) (db : database) :
  ObjectId user_id = Some uid →
  is_Some (question_skills question) →
  ∃ db',
    update_user_progress user_id question_id question ok db = (db', Some tt)
    ∧ total_attempts (progress_of db' uid)
      = (total_attempts (progress_of db uid) + 1)%Z
    ∧ (∀ x, x ∈ attempted_questions (progress_of db uid) →
            x ∈ attempted_questions (progress_of db' uid))
    ∧ question_id ∈ attempted_questions (progress_of db' uid).
Proof.
  intros Hu [tags Ht]. eexists. split.
  { apply (update_user_progress_returns _ _ _ _ _ _ _ Hu Ht). }
  rewrite progress_of_updated. unfold apply_answer. simpl.
  split; [reflexivity|].
  destruct (decide (question_id ∈ attempted_questions (progress_of db uid))) as [Hin|Hnin].
  - split; [auto|exact Hin].
  - split.
    + intros x Hx. apply elem_of_app. left. exact Hx.
    + apply elem_of_app. right. apply list_elem_of_singleton. reflexivity.
Qed.


Lemma progress_of_ok (db : database) (uid : string) :
  map_Forall (λ _ p, progress_ok p) (user_progress db) → progress_ok (progress_of db uid).
Proof.
  intros Hdb. unfold progress_of.
  destruct (user_progress db !! uid) as [p|] eqn:E; simpl.
  - exact (Hdb uid p E).
  - exact new_progress_ok.
Qed.

(** Every call, returning or raising, keeps the invariant of every
    progress document of the store. *)
Lemma run_call_ok (db : database) (c : call) :
  map_Forall (λ _ p, progress_ok p) (user_progress db) →
  map_Forall (λ _ p, progress_ok p) (user_progress (run_call db c)).
Proof.
  intros Hdb. unfold run_call.
  destruct (ObjectId (c_user_id c)) as [uid|] eqn:Hu.
  - destruct (question_skills (c_question c)) as [tags|] eqn:Ht.
    + rewrite (update_user_progress_returns _ _ _ _ _ _ _ Hu Ht). simpl.
      apply map_Forall_insert_2; [|exact Hdb].
      apply apply_answer_ok, progress_of_ok, Hdb.
    + rewrite update_user_progress_raises by (right; exact Ht). exact Hdb.
  - rewrite update_user_progress_raises by (left; exact Hu). exact Hdb.
Qed.

Lemma run_calls_ok (calls : list call) (db : database) :
  map_Forall (λ _ p, progress_ok p) (user_progress db) →
  map_Forall (λ _ p, progress_ok p) (user_progress (run_calls calls db)).
Proof.
  revert db. induction calls as [|c calls IH]; intros db Hdb; simpl; [exact Hdb|].
  apply IH, run_call_ok, Hdb.
Qed.

(** C6. After any finite sequence of calls on a store that had no
    progress recorded, the progress of every user has its completed
    questions among its attempted ones, no more correct answers than
    attempts, and every tracked skill's mastery between 0 and 100. *)
Theorem update_user_progress_invariants (catalog : list document) (calls : list call)
    (user_object_id : string) :
  let p := progress_of (run_calls calls (fresh_db catalog)) user_object_id in
  (∀ x, x ∈ completed_questions p → x ∈ attempted_questions p)
  ∧ (correct_answers p ≤ total_attempts p)%Z
  ∧ (∀ skill e, (skill, e) ∈ skills p → (0 <= mastery_level e <= 100)%Q).
Proof.
  intros p.
  assert (Hp : progress_ok p).
  { apply progress_of_ok, run_calls_ok. simpl. apply map_Forall_empty. }
  destruct Hp as (Hsub & Hcnt & Hsk). split; [exact Hsub|]. split; [lia|].
  intros skill e Hin. rewrite Forall_forall in Hsk.
  destruct (Hsk (skill, e) Hin) as [_ Hm]. exact Hm.
Qed.

End Updater.

Lemma update_user_progress_counts_attempt_witness :
  ∃ db',
    update_user_progress Samples.learner "64b000000000000000000003"
      Samples.fractions_question false (fresh_db [Samples.fractions_question])
    = (db', Some tt)
    ∧ total_attempts (progress_of db' Samples.learner)
      = (total_attempts (progress_of (fresh_db [Samples.fractions_question])
                                     Samples.learner) + 1)%Z
    ∧ (∀ x, x ∈ attempted_questions (progress_of (fresh_db [Samples.fractions_question])
                                                 Samples.learner) →
            x ∈ attempted_questions (progress_of db' Samples.learner))
    ∧ "64b000000000000000000003" ∈ attempted_questions (progress_of db' Samples.learner).
Proof.
  apply (update_user_progress_counts_attempt Samples.learner Samples.learner).
  - vm_compute. reflexivity.
  - vm_compute. eexists. reflexivity.
Defined.

(** ** The question selector *)

Lemma insert_sorted_elem {A} (leb : A → A → bool) (x y : A) (l : list A) :
  y ∈ insert_sorted leb x l ↔ y = x ∨ y ∈ l.
Proof.
  induction l as [|z l IH]; simpl.
  - rewrite list_elem_of_singleton. split; [auto|]. intros [?|Hin]; [done|inversion Hin].
  - destruct (leb x z).
    + rewrite elem_of_cons. reflexivity.
    + rewrite !elem_of_cons, IH. tauto.
Qed.

Lemma stable_sort_elem {A} (leb : A → A → bool) (y : A) (l : list A) :
  y ∈ stable_sort leb l ↔ y ∈ l.
Proof.
  induction l as [|x l IH]; simpl; [reflexivity|].
  rewrite insert_sorted_elem, IH, elem_of_cons. reflexivity.
Qed.

Lemma limit_elem (n : nat) (l : list document) (d : document) :
  d ∈ limit n l → d ∈ l.
Proof. apply subseteq_take. Qed.

Lemma limit_length (n : nat) (l : list document) : (length (limit n l) ≤ n)%nat.
Proof. unfold limit. rewrite length_take. lia. Qed.

Lemma find_elem (coll : list document) (q : query_doc) (d : document) :
  d ∈ find coll q ↔ matches q d = true ∧ d ∈ coll.
Proof.
  unfold find. rewrite list_elem_of_filter. rewrite Is_true_true. reflexivity.
Qed.

Lemma matches_lookup (q : query_doc) (d : document) (k : string) (c : condition) :
  matches q d = true → q !! k = Some c → cond_match (d !! k) c = true.
Proof.
  unfold matches. rewrite forallb_forall. intros Hall Hk.
  apply (Hall (k, c)). apply list_elem_of_In, elem_of_map_to_list. exact Hk.
Qed.

Lemma string_compare_refl (s : string) : String.compare s s = Eq.
Proof.
  pose proof (String.compare_antisym s s) as Hs.
  destruct (String.compare s s); simpl in Hs; congruence.
Qed.

Lemma eq_match_oid (o : string) : eq_match (Some (VOid o)) (VOid o) = true.
Proof.
  unfold eq_match, bson_eqb. simpl. rewrite string_compare_refl. reflexivity.
Qed.

(** A document that passes [{"$nin": vs}] on a field does not hold an
    identifier of [vs] there. *)
Lemma nin_match_oid (fv : option value) (vs : list value) (ops : list operator) (o : string) :
  cond_match fv (Ops ops) = true → Q_nin vs ∈ ops → VOid o ∈ vs → fv ≠ Some (VOid o).
Proof.
  simpl. rewrite forallb_forall. intros Hall Hop Hin ->.
  specialize (Hall (Q_nin vs)). rewrite <- list_elem_of_In in Hall.
  specialize (Hall Hop). simpl in Hall.
  apply negb_true_iff in Hall.
  assert (Hex : in_match (Some (VOid o)) vs = true).
  { unfold in_match. apply existsb_exists. exists (VOid o).
    split; [apply list_elem_of_In, Hin|apply eq_match_oid]. }
  congruence.
Qed.
Section Selector.
Context `{Builtins}.

Lemma object_ids_elem (l : list string) (ids : list value) (c o : string) :
  object_ids l = Some ids → c ∈ l → ObjectId c = Some o → VOid o ∈ ids.
Proof.
  unfold object_ids. intros Hm Hc Ho. apply mapM_Some_1 in Hm.
  apply list_elem_of_lookup_1 in Hc. destruct Hc as [i Hi].
  destruct (Forall2_lookup_l _ _ _ _ _ Hm Hi) as (v & Hv & Hf).
  rewrite Ho in Hf. simpl in Hf. injection Hf as <-.
  apply list_elem_of_lookup. eauto.
Qed.

Lemma object_ids_total (l : list string) :
  (∀ c, c ∈ l → is_Some (ObjectId c)) → is_Some (object_ids l).
Proof.
  intros Hall. unfold object_ids. apply mapM_is_Some_2, Forall_forall.
  intros c Hc. destruct (Hall c Hc) as [o Ho]. simpl. rewrite Ho. simpl. eauto.
Qed.

Lemma with_filter_other (k k' : string) (v : option string) (q : query_doc) :
  k' ≠ k → with_filter k v q !! k' = q !! k'.
Proof.
  intros Hne. unfold with_filter. destruct v as [s|]; [|reflexivity].
  destruct (String.eqb s ""); [reflexivity|]. apply lookup_insert_ne. congruence.
Qed.

(** Whatever a filter with [{"_id": {"$nin": vs}}] selects holds no
    identifier of [vs]. *)
Lemma find_excludes (coll : list document) (q : query_doc) (vs : list value)
    (d : document) (o : string) :
  q !! "_id" = Some (Ops [Q_nin vs]) → d ∈ find coll q → VOid o ∈ vs →
  d !! "_id" ≠ Some (VOid o).
Proof.
  intros Hq Hd Ho. apply find_elem in Hd. destruct Hd as [Hm _].
  pose proof (matches_lookup q d "_id" _ Hm Hq) as Hc.
  apply (nin_match_oid _ vs _ o Hc); [left|exact Ho].
Qed.

Lemma sorted_limit_excludes (coll : list document) (q : query_doc) (vs : list value)
    (n : nat) (d : document) (o : string) :
  q !! "_id" = Some (Ops [Q_nin vs]) →
  d ∈ limit n (sort_by_priority (find coll q)) → VOid o ∈ vs →
  d !! "_id" ≠ Some (VOid o).
Proof.
  intros Hq Hd. apply limit_elem in Hd. unfold sort_by_priority in Hd.
  apply stable_sort_elem in Hd. apply (find_excludes coll q vs d o Hq Hd).
Qed.

(** C4. For a count between 1 and 10 and a progress document, a
    returned list has at most [count] questions and none whose [_id] is
    the identifier of a completed question, through all three stages;
    and the call returns (does not raise) when the completed identifiers
    parse and every catalog document has an [_id]. *)
Theorem get_next_questions_bounded_and_fresh (db : database) (user_id : string)
    (count : nat) (difficulty subject topic : option string) (p : progress_doc) :
  (1 ≤ count ≤ 10)%nat →
  (∀ qs, get_next_questions db user_id count difficulty subject topic (Some p) = Some qs →
         (length qs ≤ count)%nat
         ∧ ∀ q c o, q ∈ qs → c ∈ completed_questions p → ObjectId c = Some o →
                    q !! "_id" ≠ Some (VOid o))
  ∧ ((∀ c, c ∈ completed_questions p → is_Some (ObjectId c)) →
     (∀ q, q ∈ questions db → is_Some (q !! "_id")) →
     is_Some (get_next_questions db user_id count difficulty subject topic (Some p))).
Proof.
  intros Hcount. unfold get_next_questions.
  destruct (object_ids (completed_questions p)) as [ids|] eqn:Hids; simpl.
  2: { split; [intros qs [=]|]. intros Hall _.
       destruct (object_ids_total _ Hall) as [ids Hids']. congruence. }
  set (q1 := <["_id" := Ops [Q_nin ids]]> _).
  set (q2 := match stable_sort mastery_leb (skills p) with
             | [] => q1
             | (weakest_skill, _) :: _ => <["skills" := Is (VStr weakest_skill)]> q1
             end).
  assert (Hq2 : q2 !! "_id" = Some (Ops [Q_nin ids])).
  { unfold q2. destruct (stable_sort mastery_leb (skills p)) as [|[w ?] ?].
    - apply lookup_insert_eq.
    - rewrite lookup_insert_ne by discriminate. apply lookup_insert_eq. }
  set (s1 := limit count (sort_by_priority (find (questions db) q2))).
  assert (Hs1 : ∀ d o, d ∈ s1 → VOid o ∈ ids → d !! "_id" ≠ Some (VOid o)).
  { intros d o Hd. apply (sorted_limit_excludes _ _ _ _ _ _ Hq2 Hd). }
  assert (Hl1 : (length s1 ≤ count)%nat) by apply limit_length.
  set (s2 := limit (count - length s1)
                   (sort_by_priority (find (questions db) (delete "topic" q2)))).
  assert (Hs2 : ∀ d o, d ∈ s2 → VOid o ∈ ids → d !! "_id" ≠ Some (VOid o)).
  { intros d o Hd. refine (sorted_limit_excludes _ _ _ _ _ _ _ Hd).
    rewrite lookup_delete_ne by discriminate. exact Hq2. }
  assert (Hl2 : (length s2 ≤ count - length s1)%nat) by apply limit_length.
  assert (Hin1 : ∀ d, d ∈ s1 → d ∈ questions db).
  { intros d Hd. apply limit_elem, stable_sort_elem, find_elem in Hd. tauto. }
  assert (Hin2 : ∀ d, d ∈ s2 → d ∈ questions db).
  { intros d Hd. apply limit_elem, stable_sort_elem, find_elem in Hd. tauto. }
  assert (Hstage3 : ∀ s : list document,
    (∀ d o, d ∈ s → VOid o ∈ ids → d !! "_id" ≠ Some (VOid o)) →
    (length s ≤ count)%nat →
    (∀ d, d ∈ s → d ∈ questions db) →
    let r :=
      if (length s <? count)%nat then
        mapM (λ q : document, q !! "_id") s ≫= λ existing_ids : list value,
          Some (s ++ limit (count - length s)
                       (find (questions db)
                             {["_id" := Ops [Q_nin (existing_ids ++ ids)]]}))
      else Some s in
    (∀ qs, r = Some qs →
           (length qs ≤ count)%nat
           ∧ ∀ q o, q ∈ qs → VOid o ∈ ids → q !! "_id" ≠ Some (VOid o))
    ∧ ((∀ q, q ∈ questions db → is_Some (q !! "_id")) → is_Some r)).
  { intros s Hs Hl Hin r. unfold r. destruct (length s <? count)%nat eqn:E.
    - split.
      + intros qs Hqs.
        destruct (mapM (λ q : document, q !! "_id") s) as [existing|]; [|discriminate].
        simpl in Hqs. injection Hqs as <-. split.
        * rewrite List.length_app. pose proof (limit_length (count - length s)
            (find (questions db) {["_id" := Ops [Q_nin (existing ++ ids)]]})). lia.
        * intros q o Hq Ho. apply elem_of_app in Hq. destruct Hq as [Hq|Hq].
          { apply (Hs q o Hq Ho). }
          apply limit_elem in Hq.
          refine (find_excludes _ _ (existing ++ ids) _ _ _ Hq _).
          { apply lookup_singleton_eq. }
          apply elem_of_app. right. exact Ho.
      + intros Hid.
        destruct (mapM_is_Some_2 (λ q : document, q !! "_id") s) as [existing ->].
        { apply Forall_forall. intros d Hd. apply Hid, Hin, Hd. }
        simpl. eauto.
    - split; [|eauto]. intros qs [= <-]. split; [exact Hl|]. exact Hs. }
  assert (Hgoal : ∀ s : list document,
    (∀ d o, d ∈ s → VOid o ∈ ids → d !! "_id" ≠ Some (VOid o)) →
    (length s ≤ count)%nat →
    (∀ d, d ∈ s → d ∈ questions db) →
    let r :=
      if (length s <? count)%nat then
        mapM (λ q : document, q !! "_id") s ≫= λ existing_ids : list value,
          Some (s ++ limit (count - length s)
                       (find (questions db)
                             {["_id" := Ops [Q_nin (existing_ids ++ ids)]]}))
      else Some s in
    (∀ qs, r = Some qs →
           (length qs ≤ count)%nat
           ∧ ∀ q c o, q ∈ qs → c ∈ completed_questions p → ObjectId c = Some o →
                      q !! "_id" ≠ Some (VOid o))
    ∧ ((∀ c, c ∈ completed_questions p → is_Some (ObjectId c)) →
       (∀ q, q ∈ questions db → is_Some (q !! "_id")) → is_Some r)).
  { intros s Hs Hl Hin r. destruct (Hstage3 s Hs Hl Hin) as [Ha Hb]. split.
    - intros qs Hqs. destruct (Ha qs Hqs) as [Hlen Hex]. split; [exact Hlen|].
      intros q c o Hq Hc Ho. apply (Hex q o Hq). apply (object_ids_elem _ _ _ _ Hids Hc Ho).
    - intros _ Hid. apply Hb, Hid. }
  destruct (length s1 <? count)%nat eqn:E1.
  - destruct (decide (is_Some (q2 !! "topic"))) as [Ht|Ht].
    + apply Hgoal.
      * intros d o Hd. apply elem_of_app in Hd. destruct Hd; [apply Hs1|apply Hs2]; assumption.
      * rewrite List.length_app. lia.
      * intros d Hd. apply elem_of_app in Hd. destruct Hd; [apply Hin1|apply Hin2]; assumption.
    + apply Hgoal; assumption.
  - apply Hgoal; assumption.
Qed.
End Selector.

Lemma get_next_questions_bounded_and_fresh_witness :
  (length [Samples.geometry_easy; Samples.algebra_hard] ≤ 2)%nat
  ∧ Samples.geometry_easy !! "_id" ≠ Some (VOid "64b000000000000000000010")
  ∧ is_Some (get_next_questions (fresh_db Samples.catalog) Samples.learner 2 None None None
               (Some Samples.one_completed)).
Proof.
  destruct (get_next_questions_bounded_and_fresh (fresh_db Samples.catalog)
              Samples.learner 2 None None None Samples.one_completed)
    as [Hsound Htotal]; [lia|].
  destruct (Hsound [Samples.geometry_easy; Samples.algebra_hard]) as [Hlen Hfresh].
  { vm_compute. reflexivity. }
  split; [exact Hlen|]. split.
  - apply (Hfresh Samples.geometry_easy "64b000000000000000000010").
    + left.
    + vm_compute. left.
    + vm_compute. reflexivity.
  - apply Htotal.
    + intros c Hc. vm_compute in Hc. apply list_elem_of_singleton in Hc. subst c.
      vm_compute. eexists. reflexivity.
    + intros q Hq. vm_compute in Hq.
      repeat (apply elem_of_cons in Hq; destruct Hq as [->|Hq];
              [vm_compute; eexists; reflexivity|]).
      inversion Hq.
Defined.

(** C3. The selector on the sample catalog, three questions asked on the
    topic ["algebra"]: the two algebra questions fill stage 1, and stage 2
    fills the last place with the first of them again, although a third
    question is in the catalog. *)
Lemma get_next_questions_repeats_a_question :
  get_next_questions (fresh_db Samples.catalog) Samples.learner 3 None None
    (Some "algebra") (Some new_progress)
  = Some [Samples.algebra_medium; Samples.algebra_hard; Samples.algebra_medium]
  ∧ ¬ NoDup ((λ q : document, q !! "_id")
               <$> [Samples.algebra_medium; Samples.algebra_hard; Samples.algebra_medium])
  ∧ Samples.geometry_easy ∈ Samples.catalog.
Proof.
  split; [vm_compute; reflexivity|]. split.
  - vm_compute. intros Hnd. apply NoDup_cons in Hnd. destruct Hnd as [Hnin _].
    apply Hnin. right. left.
  - right. left.
Qed.

(** ** The recommendation engine *)

(** C1. After a correct answer to the medium algebra question of the sample
    catalog, the hard algebra question is in the catalog and not
    completed, and the geometry question is recommended: as strings,
    ["hard"] is not greater than ["medium"]. *)
Lemma recommend_after_correct_medium_misses_hard :
  let answered :=
    save_user_answer Samples.learner "64b000000000000000000010" (VStr "B") (VInt 0)
      (fresh_db Samples.catalog) in
  answered.2 = Some Samples.correct_result
  ∧ completed_questions (progress_of answered.1 Samples.learner)
    = ["64b000000000000000000010"]
  ∧ Samples.algebra_hard ∈ questions answered.1
  ∧ (recommend_next_question Samples.learner "64b000000000000000000010"
       Samples.correct_result answered.1).2
    = Some (Some "64b000000000000000000011")
  ∧ gt_match (Some (VStr "hard")) (VStr "medium") = false.
Proof.
  repeat split; try (vm_compute; reflexivity).
  right. right. left.
Qed.

Section Recommender.
Context `{Builtins}.

(** The filter of the incorrect branch names the current question and
    nothing else under [_id], whatever the progress document holds. *)
Lemma incorrect_branch_ignores_progress (question : document) (progress : progress_doc)
    (current : string) (query : query_doc) :
  recommendation_query question progress current false = Some query →
  query !! "_id" = Some (Ops [Q_ne (VOid current)])
  ∧ ∀ progress', recommendation_query question progress' current false = Some query.
Proof.
  unfold recommendation_query. intros Hq. split; [|intros ?; exact Hq].
  destruct (decide (is_Some (question !! "skills"))).
  - destruct (default (VList []) (question !! "skills")); try discriminate.
    injection Hq as <-. rewrite lookup_insert_ne by discriminate.
    rewrite !lookup_insert_ne by discriminate. apply lookup_insert_eq.
  - injection Hq as <-. rewrite !lookup_insert_ne by discriminate.
    apply lookup_insert_eq.
Qed.

End Recommender.

(** C10. There is a reachable store in which an answer is submitted
    and marked incorrect, and the question then recommended is one the
    user has completed; the filter of the incorrect branch never names
    the completed questions. *)
Theorem recommend_after_incorrect_returns_completed :
  (∃ db0 user_id uid current answer time_taken db r next,
     reachable db0
     ∧ ObjectId user_id = Some uid
     ∧ save_user_answer user_id current answer time_taken db0 = (db, Some r)
     ∧ is_correct r = false
     ∧ (recommend_next_question user_id current r db).2 = Some (Some next)
     ∧ next ∈ completed_questions (progress_of db uid))
  ∧ (∀ question progress current query,
       recommendation_query question progress current false = Some query →
       query !! "_id" = Some (Ops [Q_ne (VOid current)])).
Proof.
  split.
  - exists (save_user_answer Samples.learner "64b000000000000000000012" (VStr "C") (VInt 0)
              (fresh_db Samples.catalog)).1.
    exists Samples.learner, Samples.learner, "64b000000000000000000010", (VStr "A"), (VInt 0).
    exists (save_user_answer Samples.learner "64b000000000000000000010" (VStr "A") (VInt 0)
             (save_user_answer Samples.learner "64b000000000000000000012" (VStr "C") (VInt 0)
                (fresh_db Samples.catalog)).1).1.
    exists Samples.incorrect_result, "64b000000000000000000012".
    split; [apply reachable_answer, reachable_fresh|].
    split; [vm_compute; reflexivity|]. split; [vm_compute; reflexivity|].
    split; [reflexivity|]. split; [vm_compute; reflexivity|].
    vm_compute. left.
  - intros question progress current query Hq.
    apply (incorrect_branch_ignores_progress question progress current query Hq).
Qed.

(** * Further properties of the question-and-answer code *)

(** ** Looking a question up by its id *)

Lemma bson_eqb_oid (c : value) (o : string) : bson_eqb c (VOid o) = true → c = VOid o.
Proof.
  destruct c; unfold bson_eqb; simpl; try discriminate.
  destruct (String.compare o0 o) eqn:E; try discriminate.
  apply String.compare_eq_iff in E. subst. reflexivity.
Qed.

Lemma eq_match_oid_inv (fv : option value) (o : string) :
  eq_match fv (VOid o) = true →
  fv = Some (VOid o) ∨ ∃ l, fv = Some (VList l) ∧ VOid o ∈ l.
Proof.
  unfold eq_match. simpl. rewrite orb_false_r. intros Hex.
  apply existsb_exists in Hex. destruct Hex as (c & Hc & Heq).
  apply bson_eqb_oid in Heq. subst c.
  destruct fv as [v|]; simpl in Hc; [|contradiction].
  destruct v; simpl in Hc;
    try (destruct Hc as [Hc|[]]; left; congruence).
  destruct Hc as [Hc|Hc]; [discriminate|].
  right. exists l. split; [reflexivity|]. apply list_elem_of_In. exact Hc.
Qed.

Lemma find_one_elem (coll : list document) (q : query_doc) (d : document) :
  find_one coll q = Some d → d ∈ coll ∧ matches q d = true.
Proof.
  unfold find_one. intros Hh. apply head_Some_elem_of in Hh.
  apply find_elem in Hh. tauto.
Qed.

Lemma find_one_None (coll : list document) (q : query_doc) :
  find_one coll q = None ↔ ∀ d, d ∈ coll → matches q d = false.
Proof.
  unfold find_one. rewrite head_None. split.
  - intros Hnil d Hd. destruct (matches q d) eqn:E; [|reflexivity].
    assert (Hin : d ∈ find coll q) by (apply find_elem; auto).
    rewrite Hnil in Hin. inversion Hin.
  - intros Hall. destruct (find coll q) as [|d l] eqn:E; [reflexivity|].
    assert (Hin : d ∈ find coll q) by (rewrite E; left).
    apply find_elem in Hin. destruct Hin as [Hm Hd]. rewrite (Hall d Hd) in Hm.
    discriminate.
Qed.

Lemma matches_singleton (k : string) (c : condition) (d : document) :
  matches {[ k := c ]} d = cond_match (d !! k) c.
Proof.
  unfold matches. rewrite map_to_list_singleton. simpl. apply andb_true_r.
Qed.

Section Lookup.
Context `{Builtins}.

Lemma get_question_by_id_Some (db : database) (question_id : string) (q : document) :
  get_question_by_id db question_id = Some q →
  q ∈ questions db
  ∧ ∃ o, ObjectId question_id = Some o
         ∧ (q !! "_id" = Some (VOid o)
            ∨ ∃ l, q !! "_id" = Some (VList l) ∧ VOid o ∈ l).
Proof.
  unfold get_question_by_id. intros Hq.
  destruct (ObjectId question_id) as [o|]; [|discriminate].
  apply find_one_elem in Hq. destruct Hq as [Hin Hm]. split; [exact Hin|].
  exists o. split; [reflexivity|]. rewrite matches_singleton in Hm.
  apply eq_match_oid_inv. exact Hm.
Qed.

Lemma get_question_by_id_stored (db : database) (question_id o : string) (q : document) :
  ObjectId question_id = Some o → q ∈ questions db → q !! "_id" = Some (VOid o) →
  is_Some (get_question_by_id db question_id).
Proof.
  unfold get_question_by_id. intros -> Hin Hid.
  destruct (find_one (questions db) {["_id" := Is (VOid o)]}) eqn:E; [eauto|].
  rewrite find_one_None in E. specialize (E q Hin).
  rewrite matches_singleton, Hid in E. simpl in E. rewrite eq_match_oid in E.
  discriminate.
Qed.

(** X1. What [get_question_by_id] returns is a document of the catalog
    whose [_id] holds the identifier asked for; a malformed id gives
    [None], not an exception; and a question stored under the id is
    found. *)
Theorem get_question_by_id_sound (db : database) (question_id : string) :
  (∀ q, get_question_by_id db question_id = Some q →
        q ∈ questions db
        ∧ ∃ o, ObjectId question_id = Some o
               ∧ (q !! "_id" = Some (VOid o)
                  ∨ ∃ l, q !! "_id" = Some (VList l) ∧ VOid o ∈ l))
  ∧ (ObjectId question_id = None → get_question_by_id db question_id = None)
  ∧ (∀ o q, ObjectId question_id = Some o → q ∈ questions db →
            q !! "_id" = Some (VOid o) →
            is_Some (get_question_by_id db question_id)).
Proof.
  split; [|split].
  - apply get_question_by_id_Some.
  - unfold get_question_by_id. intros ->. reflexivity.
  - apply get_question_by_id_stored.
Qed.

(** X2. In a catalog whose documents carry ObjectIds under [_id], with
    a single document under the identifier asked for, the lookup
    returns that document. *)
Theorem get_question_by_id_unique (db : database) (question_id o : string) (q : document) :
  ObjectId question_id = Some o →
  q ∈ questions db →
  q !! "_id" = Some (VOid o) →
  (∀ d, d ∈ questions db → ∃ o', d !! "_id" = Some (VOid o')) →
  (∀ d, d ∈ questions db → d !! "_id" = Some (VOid o) → d = q) →
  get_question_by_id db question_id = Some q.
Proof.
  intros Ho Hin Hid Hoids Huniq.
  destruct (get_question_by_id_stored db question_id o q Ho Hin Hid) as [q' Hq'].
  rewrite Hq'. f_equal.
  destruct (get_question_by_id_Some db question_id q' Hq') as (Hin' & o' & Ho' & Hid').
  assert (o' = o) by congruence. subst o'.
  destruct Hid' as [Hid'|(l & Hl & _)].
  - apply Huniq; assumption.
  - destruct (Hoids q' Hin') as [o2 Ho2]. congruence.
Qed.

End Lookup.


Lemma get_question_by_id_unique_witness :
  get_question_by_id (fresh_db Samples.catalog) "64B000000000000000000011"
  = Some Samples.geometry_easy.
Proof.
  apply (get_question_by_id_unique _ _ "64b000000000000000000011").
  - vm_compute. reflexivity.
  - right. left.
  - vm_compute. reflexivity.
  - apply (proj1 (Forall_forall
             (λ d : document, ∃ o', d !! "_id" = Some (VOid o')) _)).
    repeat constructor; eexists; vm_compute; reflexivity.
  - apply (proj1 (Forall_forall
             (λ d : document, d !! "_id" = Some (VOid "64b000000000000000000011") →
                              d = Samples.geometry_easy) _)).
    constructor; [intros E; exfalso; revert E; vm_compute; discriminate|].
    constructor; [reflexivity|].
    constructor; [intros E; exfalso; revert E; vm_compute; discriminate|].
    constructor.
Defined.

(** ** Reading progress and saving an answer *)

Lemma set_user_progress_id (db : database) : set_user_progress db (user_progress db) = db.
Proof. destruct db. reflexivity. Qed.

Lemma progress_of_insert (db : database) (up : gmap string progress_doc)
    (uid u : string) (p : progress_doc) :
  progress_of (set_user_progress db (<[uid := p]> up)) u
  = if decide (u = uid) then p else default new_progress (up !! u).
Proof.
  unfold progress_of. simpl. destruct (decide (u = uid)) as [->|Hne].
  - rewrite lookup_insert_eq. reflexivity.
  - rewrite lookup_insert_ne by congruence. reflexivity.
Qed.

Section Store_calls.
Context `{Builtins}.

Lemma get_user_progress_run (user_id uid : string) (db : database) :
  ObjectId user_id = Some uid →
  get_user_progress user_id db =
    match user_progress db !! uid with
    | Some p => (db, Some p)
    | None =>
      (set_user_progress db (<[uid := new_progress]> (user_progress db)),
       Some new_progress)
    end.
Proof.
  intros Hu. unfold get_user_progress. unfold_call. rewrite Hu. simpl.
  destruct (user_progress db !! uid); reflexivity.
Qed.

Lemma get_user_progress_stored (user_id uid : string) (db : database) :
  ObjectId user_id = Some uid →
  ∃ db',
    get_user_progress user_id db = (db', Some (progress_of db uid))
    ∧ (∀ u, progress_of db' u = progress_of db u)
    ∧ user_progress db' !! uid = Some (progress_of db uid)
    ∧ questions db' = questions db
    ∧ user_answers db' = user_answers db
    ∧ get_user_progress user_id db' = (db', Some (progress_of db uid))
    ∧ (is_Some (user_progress db !! uid) → db' = db).
Proof.
  intros Hu. rewrite (get_user_progress_run _ _ _ Hu). unfold progress_of.
  destruct (user_progress db !! uid) as [p|] eqn:E; simpl.
  - exists db. rewrite (get_user_progress_run _ _ _ Hu), E. simpl.
    repeat split; auto.
  - eexists. split; [reflexivity|].
    rewrite (get_user_progress_run _ _ _ Hu). simpl.
    rewrite lookup_insert_eq. repeat split; auto.
    + intros u. destruct (decide (u = uid)) as [->|Hne].
      * rewrite lookup_insert_eq, E. reflexivity.
      * rewrite lookup_insert_ne by congruence. reflexivity.
    + intros [? ?]. discriminate.
Qed.

Lemma get_user_progress_malformed (user_id : string) (db : database) :
  ObjectId user_id = None → get_user_progress user_id db = (db, None).
Proof.
  intros Hu. unfold get_user_progress. unfold_call. rewrite Hu. reflexivity.
Qed.

(** X3. [get_user_progress] returns the user's stored progress, or
    the fresh document when none is stored, which it then stores.  It
    changes nobody's progress, nor the catalog, nor the answer log; a
    second call returns the same document and writes nothing; a
    malformed user id raises and writes nothing. *)
Theorem get_user_progress_lazy (user_id : string) (db : database) :
  (∀ uid, ObjectId user_id = Some uid →
     ∃ db',
       get_user_progress user_id db = (db', Some (progress_of db uid))
       ∧ (∀ u, progress_of db' u = progress_of db u)
       ∧ user_progress db' !! uid = Some (progress_of db uid)
       ∧ questions db' = questions db
       ∧ user_answers db' = user_answers db
       ∧ get_user_progress user_id db' = (db', Some (progress_of db uid))
       ∧ (is_Some (user_progress db !! uid) → db' = db))
  ∧ (ObjectId user_id = None → get_user_progress user_id db = (db, None)).
Proof.
  split.
  - intros uid. apply get_user_progress_stored.
  - apply get_user_progress_malformed.
Qed.

(** The outcomes of [save_user_answer]. *)
Lemma save_user_answer_cases (user_id question_id : string) (user_answer time_taken : value)
    (db : database) :
  save_user_answer user_id question_id user_answer time_taken db = (db, None)
  ∨ ∃ uid oq q res,
      ObjectId user_id = Some uid
      ∧ ObjectId question_id = Some oq
      ∧ get_question_by_id db question_id = Some q
      ∧ evaluate_answer q user_answer = Some res
      ∧ let logged :=
          insert_answer db {| ar_user_id := uid; ar_question_id := oq;
                              ar_user_answer := user_answer;
                              ar_is_correct := is_correct res;
                              ar_time_taken := time_taken;
                              ar_score := score res |} in
        (question_skills q = None
         ∧ save_user_answer user_id question_id user_answer time_taken db = (logged, None))
        ∨ (∃ tags,
             question_skills q = Some tags
             ∧ save_user_answer user_id question_id user_answer time_taken db
               = (set_user_progress logged
                    (<[uid := apply_answer (progress_of db uid) question_id tags
                                (is_correct res)]> (user_progress db)),
                  Some res)).
Proof.
  unfold save_user_answer, get_question_by_id. unfold_call.
  destruct (ObjectId user_id) as [uid|] eqn:Hu; simpl; [|left; reflexivity].
  destruct (ObjectId question_id) as [oq|] eqn:Hq; simpl; [|left; reflexivity].
  destruct (find_one (questions db) {["_id" := Is (VOid oq)]}) as [q|] eqn:Hf;
    [|left; reflexivity].
  destruct (size q =? 0)%nat; [left; reflexivity|].
  destruct (evaluate_answer q user_answer) as [res|] eqn:He; simpl; [|left; reflexivity].
  right. exists uid, oq, q, res. repeat (split; [assumption || reflexivity|]).
  unfold update_user_progress. unfold_call. rewrite Hu. simpl.
  destruct (question_skills q) as [tags|] eqn:Ht; simpl.
  - right. exists tags. split; reflexivity.
  - left. split; reflexivity.
Qed.

(** X4. With a malformed user or question id, or an id under which
    no question is stored, [save_user_answer] raises before it writes:
    nothing is logged and no progress changes. *)
Theorem save_user_answer_rejects (user_id question_id : string)
    (user_answer time_taken : value) (db : database) :
  ObjectId user_id = None ∨ get_question_by_id db question_id = None →
  save_user_answer user_id question_id user_answer time_taken db = (db, None).
Proof.
  intros Hbad.
  destruct (save_user_answer_cases user_id question_id user_answer time_taken db)
    as [Hc|(uid & oq & q & res & Hu & Hq & Hg & _)]; [exact Hc|].
  destruct Hbad; congruence.
Qed.

(** X5. A call that returns logs exactly one record, which carries
    the answer and its evaluation; it leaves the catalog and every other
    user's progress as they were; it adds one to the user's
    [total_attempts]; and the question is completed afterwards exactly
    when it was before or the answer was correct. *)
Theorem save_user_answer_effect (user_id question_id : string)
    (user_answer time_taken : value) (db db' : database) (res : result) :
  save_user_answer user_id question_id user_answer time_taken db = (db', Some res) →
  ∃ uid oq q,
    ObjectId user_id = Some uid
    ∧ ObjectId question_id = Some oq
    ∧ get_question_by_id db question_id = Some q
    ∧ evaluate_answer q user_answer = Some res
    ∧ user_answers db' =
        user_answers db ++ [{| ar_user_id := uid; ar_question_id := oq;
                               ar_user_answer := user_answer;
                               ar_is_correct := is_correct res;
                               ar_time_taken := time_taken;
                               ar_score := score res |}]
    ∧ questions db' = questions db
    ∧ (∀ u, u ≠ uid → user_progress db' !! u = user_progress db !! u)
    ∧ total_attempts (progress_of db' uid) = (total_attempts (progress_of db uid) + 1)%Z
    ∧ (question_id ∈ completed_questions (progress_of db' uid)
       ↔ question_id ∈ completed_questions (progress_of db uid) ∨ is_correct res = true).
Proof.
  intros Hs.
  destruct (save_user_answer_cases user_id question_id user_answer time_taken db)
    as [Hc|(uid & oq & q & res' & Hu & Hq & Hg & He & [[_ Hc]|(tags & Ht & Hc)])];
    try congruence.
  rewrite Hc in Hs. injection Hs as <- <-.
  exists uid, oq, q. repeat (split; [assumption || reflexivity|]).
  split; [intros u Hne; simpl; apply lookup_insert_ne; congruence|].
  rewrite !progress_of_insert. rewrite !decide_True by reflexivity.
  unfold apply_answer at 1. simpl. split; [reflexivity|].
  unfold apply_answer. simpl.
  destruct (is_correct res').
  - destruct (decide (question_id ∈ completed_questions (progress_of db uid))) as [Hin|Hnin].
    + tauto.
    + split; [auto|]. intros _. apply elem_of_app. right.
      apply list_elem_of_singleton. reflexivity.
  - split; [auto|]. intros [?|?]; [assumption|discriminate].
Qed.


End Store_calls.

Lemma save_user_answer_rejects_witness :
  save_user_answer Samples.learner "64b0000000000000000000ff" (VStr "B") (VInt 0)
    (fresh_db Samples.catalog)
  = (fresh_db Samples.catalog, None).
Proof.
  apply save_user_answer_rejects. right. vm_compute. reflexivity.
Defined.

Lemma save_user_answer_effect_witness :
  ∃ uid oq q,
    ObjectId Samples.learner = Some uid
    ∧ ObjectId "64b000000000000000000010" = Some oq
    ∧ get_question_by_id (fresh_db Samples.catalog) "64b000000000000000000010" = Some q
    ∧ evaluate_answer q (VStr "B") = Some Samples.correct_result.
Proof.
  destruct (save_user_answer_effect Samples.learner "64b000000000000000000010"
              (VStr "B") (VInt 0) (fresh_db Samples.catalog)
              (save_user_answer Samples.learner "64b000000000000000000010"
                 (VStr "B") (VInt 0) (fresh_db Samples.catalog)).1
              Samples.correct_result)
    as (uid & oq & q & Hu & Hq & Hg & He & _).
  - vm_compute. reflexivity.
  - exists uid, oq, q. auto.
Defined.


(** ** Invariants of the stores the application reaches *)

Section Reachable.
Context `{Builtins}.

(** The progress of a user after [save_user_answer] is the progress
    before, or one [apply_answer] on it. *)
Lemma save_user_answer_progress (user_id question_id : string)
    (user_answer time_taken : value) (db : database) (u : string) :
  let db' := (save_user_answer user_id question_id user_answer time_taken db).1 in
  progress_of db' u = progress_of db u
  ∨ ∃ tags ok, progress_of db' u = apply_answer (progress_of db u) question_id tags ok.
Proof.
  intros db'. unfold db'.
  destruct (save_user_answer_cases user_id question_id user_answer time_taken db)
    as [Hc|(uid & oq & q & res & Hu & Hq & Hg & He & [[_ Hc]|(tags & Ht & Hc)])];
    rewrite Hc; simpl.
  - left. reflexivity.
  - left. reflexivity.
  - rewrite progress_of_insert. destruct (decide (u = uid)) as [->|Hne].
    + right. eauto.
    + left. reflexivity.
Qed.

Lemma reachable_progress_ind (P : progress_doc → Prop) :
  P new_progress →
  (∀ p question_id tags ok, P p → P (apply_answer p question_id tags ok)) →
  ∀ db, reachable db → ∀ u, P (progress_of db u).
Proof.
  intros Hnew Hstep db Hr. induction Hr as [catalog|db user_id question_id a t Hr IH];
    intros u.
  - unfold progress_of. simpl. rewrite lookup_empty. exact Hnew.
  - destruct (save_user_answer_progress user_id question_id a t db u)
      as [->|(tags & ok & ->)]; [apply IH|apply Hstep, IH].
Qed.







(** X9. No submission, by any user and whatever its outcome, takes
    a question out of a user's attempted or completed questions. *)
Theorem save_user_answer_never_forgets (user_id question_id : string)
    (user_answer time_taken : value) (db : database) (u x : string) :
  let db' := (save_user_answer user_id question_id user_answer time_taken db).1 in
  (x ∈ completed_questions (progress_of db u) →
   x ∈ completed_questions (progress_of db' u))
  ∧ (x ∈ attempted_questions (progress_of db u) →
     x ∈ attempted_questions (progress_of db' u)).
Proof.
  intros db'.
  destruct (save_user_answer_progress user_id question_id user_answer time_taken db u)
    as [Heq|(tags & ok & Heq)]; fold db' in Heq; rewrite Heq; [tauto|].
  unfold apply_answer. simpl. split; intros Hx.
  - destruct ok; [|exact Hx].
    destruct (decide (question_id ∈ completed_questions (progress_of db u)));
      [exact Hx|apply elem_of_app; left; exact Hx].
  - destruct (decide (question_id ∈ attempted_questions (progress_of db u)));
      [exact Hx|apply elem_of_app; left; exact Hx].
Qed.

End Reachable.



(** ** Skills and mastery *)

Lemma blend_strict (old x : Q) :
  (0 <= old < 100)%Q → (0 <= x <= 1)%Q →
  (0 <= (old * (9 # 10)) + ((x * 100) * (1 - (9 # 10))) < 100)%Q.
Proof. intros [? ?] [? ?]. split; lra. Qed.

Lemma skills_set_set (k : string) (e e0 : skill_stats) (d : list (string * skill_stats)) :
  skills_set k e (skills_set k e0 d) = skills_set k e d.
Proof.
  induction d as [|[k' e'] d IH]; simpl.
  - rewrite String.eqb_refl. reflexivity.
  - destruct (String.eqb k k') eqn:E; simpl.
    + rewrite String.eqb_refl. reflexivity.
    + rewrite E, IH. reflexivity.
Qed.

Lemma update_skill_tracked (ok : bool) (d : list (string * skill_stats)) (skill : string) :
  Forall (λ ke : string * skill_stats, stats_tracked ke.2) d →
  Forall (λ ke : string * skill_stats, stats_tracked ke.2) (update_skill ok d skill).
Proof.
  intros Hd.
  assert (Hold : let old := default {| mastery_level := 0; attempts := 0; correct := 0 |}
                                    (skills_get skill d) in
                 (0 ≤ correct old ≤ attempts old)%Z ∧ (0 <= mastery_level old < 100)%Q).
  { destruct (skills_get skill d) as [e0|] eqn:E; simpl.
    - destruct (skills_get_Forall stats_tracked skill e0 d Hd E) as (_ & ? & ?). auto.
    - split; [lia|split; lra]. }
  destruct (update_skill_same ok d skill) as (e & Hget & Ha & Hc & Hm).
  destruct Hold as [[Hc0 Hca] Hm0].
  assert (He : stats_tracked e).
  { assert (Hpos : (0 < attempts e)%Z) by lia.
    assert (Hce : (0 ≤ correct e ≤ attempts e)%Z) by (destruct ok; lia).
    split; [lia|]. split; [exact Hce|]. rewrite Hm.
    replace (0 <? _)%Z with true by (symmetry; apply Z.ltb_lt; lia).
    apply blend_strict; [exact Hm0|]. apply accuracy_bounds; assumption. }
  revert Hget. unfold update_skill.
  set (e1 := if (0 <? _)%Z then _ else _).
  rewrite skills_get_set_eq. intros [= ->].
  destruct (skills_get skill d).
  - apply skills_set_Forall; [exact He|exact Hd].
  - rewrite skills_set_set. apply skills_set_Forall; [exact He|exact Hd].
Qed.

Lemma foldl_update_skill_tracked (ok : bool) (tags : list string)
    (d : list (string * skill_stats)) :
  Forall (λ ke : string * skill_stats, stats_tracked ke.2) d →
  Forall (λ ke : string * skill_stats, stats_tracked ke.2) (foldl (update_skill ok) d tags).
Proof.
  revert d. induction tags as [|t ts IH]; intros d Hd; simpl; [exact Hd|].
  apply IH, update_skill_tracked, Hd.
Qed.

Lemma update_skill_keeps (ok : bool) (d : list (string * skill_stats)) (skill k : string) :
  is_Some (skills_get k d) → is_Some (skills_get k (update_skill ok d skill)).
Proof.
  intros Hk. destruct (decide (k = skill)) as [->|Hne].
  - destruct (update_skill_same ok d skill) as (e & Hget & _). rewrite Hget. eauto.
  - rewrite update_skill_other by exact Hne. exact Hk.
Qed.

Lemma foldl_update_skill_keeps (ok : bool) (tags : list string)
    (d : list (string * skill_stats)) (k : string) :
  is_Some (skills_get k d) ∨ k ∈ tags →
  is_Some (skills_get k (foldl (update_skill ok) d tags)).
Proof.
  revert d. induction tags as [|t ts IH]; intros d Hk; simpl.
  - destruct Hk as [Hk|Hk]; [exact Hk|inversion Hk].
  - apply IH. destruct Hk as [Hk|Hk].
    + left. apply update_skill_keeps, Hk.
    + apply elem_of_cons in Hk. destruct Hk as [->|Hk]; [|right; exact Hk].
      left. destruct (update_skill_same ok d t) as (e & Hget & _). rewrite Hget. eauto.
Qed.

Section Skills.
Context `{Builtins}.

(** X10. A call of [update_user_progress] that returns touches only
    the skills the question carries: the entry of every other skill is
    as before, every carried skill has an entry afterwards, no entry is
    dropped, and the progress of every other user is untouched. *)
Theorem update_user_progress_skill_frame (user_id uid question_id : string)
    (question : document) (ok : bool) (db : database) (tags : list string) :
  ObjectId user_id = Some uid →
  question_skills question = Some tags →
  ∃ db',
    update_user_progress user_id question_id question ok db = (db', Some tt)
    ∧ (∀ k, k ∉ tags →
            skills_get k (skills (progress_of db' uid))
            = skills_get k (skills (progress_of db uid)))
    ∧ (∀ k, k ∈ tags → is_Some (skills_get k (skills (progress_of db' uid))))
    ∧ (∀ k, is_Some (skills_get k (skills (progress_of db uid))) →
            is_Some (skills_get k (skills (progress_of db' uid))))
    ∧ (∀ u, u ≠ uid → user_progress db' !! u = user_progress db !! u).
Proof.
  intros Hu Ht. eexists. split.
  { apply (update_user_progress_returns _ _ _ _ _ _ _ Hu Ht). }
  rewrite progress_of_updated. unfold apply_answer. simpl. repeat split.
  - intros k Hk. apply foldl_update_skill_other. exact Hk.
  - intros k Hk. apply foldl_update_skill_keeps. right. exact Hk.
  - intros k Hk. apply foldl_update_skill_keeps. left. exact Hk.
  - intros u Hne. apply lookup_insert_ne. congruence.
Qed.

(** X11. In every reachable store, every skill entry of every user
    has at least one attempt, no more correct answers than attempts, and
    a mastery of at least 0 and strictly below 100 (exact arithmetic):
    full mastery is never reached. *)
Theorem reachable_skills_tracked (db : database) (u skill : string) (e : skill_stats) :
  reachable db →
  (skill, e) ∈ skills (progress_of db u) →
  (1 ≤ attempts e)%Z ∧ (0 ≤ correct e ≤ attempts e)%Z
  ∧ (0 <= mastery_level e < 100)%Q.
Proof.
  intros Hr Hin.
  assert (Hall : Forall (λ ke : string * skill_stats, stats_tracked ke.2)
                        (skills (progress_of db u))).
  { apply (reachable_progress_ind
             (λ p, Forall (λ ke : string * skill_stats, stats_tracked ke.2) (skills p))).
    - constructor.
    - intros p qid tags ok Hp. unfold apply_answer. simpl.
      apply foldl_update_skill_tracked, Hp.
    - exact Hr. }
  rewrite Forall_forall in Hall. exact (Hall (skill, e) Hin).
Qed.

End Skills.

Lemma update_user_progress_skill_frame_witness :
  ∃ db',
    update_user_progress Samples.learner "64b000000000000000000010"
      Samples.algebra_medium true (fresh_db Samples.catalog) = (db', Some tt)
    ∧ is_Some (skills_get "equations" (skills (progress_of db' Samples.learner)))
    ∧ skills_get "angles" (skills (progress_of db' Samples.learner)) = None.
Proof.
  destruct (update_user_progress_skill_frame Samples.learner Samples.learner
              "64b000000000000000000010" Samples.algebra_medium true
              (fresh_db Samples.catalog) ["equations"])
    as (db' & Hrun & Hother & Hcarried & _).
  - vm_compute. reflexivity.
  - vm_compute. reflexivity.
  - exists db'. split; [exact Hrun|]. split.
    + apply Hcarried. left.
    + rewrite Hother; [reflexivity|].
      intros Hin. apply list_elem_of_singleton in Hin. discriminate.
Defined.

Lemma reachable_skills_tracked_witness :
  let db := (save_user_answer Samples.learner "64b000000000000000000010"
               (VStr "B") (VInt 0) (fresh_db Samples.catalog)).1 in
  let e := stats_of (progress_of db Samples.learner) "equations" in
  (1 ≤ attempts e)%Z ∧ (0 ≤ correct e ≤ attempts e)%Z
  ∧ (0 <= mastery_level e < 100)%Q.
Proof.
  intros db e.
  apply (reachable_skills_tracked db Samples.learner "equations" e).
  - apply reachable_answer, reachable_fresh.
  - vm_compute. left.
Defined.

(** ** A run of equal answers on a new skill *)



Section Streak.
Context `{Builtins}.


End Streak.


(** ** The performance summary *)

Section Sorting.
Context {A : Type} (leb : A → A → bool).
Hypothesis leb_total : ∀ x y, leb x y = false → leb y x = true.
Hypothesis leb_trans : ∀ x y z, leb x y = true → leb y z = true → leb x z = true.

Lemma insert_sorted_StronglySorted (x : A) (l : list A) :
  StronglySorted (λ a b, leb a b = true) l →
  StronglySorted (λ a b, leb a b = true) (insert_sorted leb x l).
Proof.
  induction 1 as [|y l Hl IH Hy]; simpl.
  - repeat constructor.
  - destruct (leb x y) eqn:E.
    + constructor; [constructor; assumption|].
      constructor; [exact E|]. rewrite Forall_forall in Hy |- *.
      intros z Hz. apply (leb_trans x y z E), Hy, Hz.
    + constructor; [exact IH|]. rewrite Forall_forall in Hy |- *.
      intros z Hz. apply insert_sorted_elem in Hz. destruct Hz as [->|Hz].
      * apply leb_total, E.
      * apply Hy, Hz.
Qed.

Lemma stable_sort_StronglySorted (l : list A) :
  StronglySorted (λ a b, leb a b = true) (stable_sort leb l).
Proof.
  induction l as [|x l IH]; simpl; [constructor|].
  apply insert_sorted_StronglySorted, IH.
Qed.

End Sorting.

Lemma insert_sorted_Permutation {A} (leb : A → A → bool) (x : A) (l : list A) :
  insert_sorted leb x l ≡ₚ x :: l.
Proof.
  induction l as [|y l IH]; simpl; [reflexivity|].
  destruct (leb x y); [reflexivity|]. rewrite IH. apply Permutation_swap.
Qed.

Lemma stable_sort_Permutation {A} (leb : A → A → bool) (l : list A) :
  stable_sort leb l ≡ₚ l.
Proof.
  induction l as [|x l IH]; simpl; [reflexivity|].
  rewrite insert_sorted_Permutation, IH. reflexivity.
Qed.

Lemma skill_level_leb_total (a b : skill_level) :
  skill_level_leb a b = false → skill_level_leb b a = true.
Proof.
  unfold skill_level_leb. intros Hab. apply Qle_bool_iff.
  apply Qlt_le_weak, Qnot_le_lt. intros Hle. apply Qle_bool_iff in Hle. congruence.
Qed.

Lemma skill_level_leb_trans (a b c : skill_level) :
  skill_level_leb a b = true → skill_level_leb b c = true → skill_level_leb a c = true.
Proof.
  unfold skill_level_leb. rewrite !Qle_bool_iff. apply Qle_trans.
Qed.

(** The sorted list of [{"skill", "mastery_level", "attempts"}] entries
    the summary is cut from. *)
Lemma performance_of_cut (p : progress_doc) :
  let levels := map (λ kd : string * skill_stats,
                       {| sl_skill := kd.1; sl_mastery_level := mastery_level kd.2;
                          sl_attempts := attempts kd.2 |}) (skills p) in
  let sorted := stable_sort skill_level_leb levels in
  weaknesses (performance_of p) = take 3 sorted
  ∧ strengths (performance_of p) = drop (length sorted - 3) sorted
  ∧ length sorted = length (skills p).
Proof.
  intros levels sorted. unfold performance_of. simpl. fold levels. fold sorted.
  split; [|split].
  - destruct (0 <? length sorted)%nat eqn:E; [reflexivity|].
    apply Nat.ltb_ge in E. destruct sorted; [reflexivity|simpl in E; lia].
  - destruct (3 <? length sorted)%nat eqn:E; [reflexivity|].
    apply Nat.ltb_ge in E. replace (length sorted - 3)%nat with 0%nat by lia.
    reflexivity.
  - unfold sorted. rewrite (Permutation_length (stable_sort_Permutation _ _)).
    unfold levels. apply List.length_map.
Qed.

(** X14. The weaknesses of the summary are entries of least mastery
    and the strengths entries of greatest mastery: each list holds three
    entries (all of them when fewer skills are tracked), the tracked
    skills are the weaknesses followed by entries of no smaller mastery,
    and entries of no greater mastery followed by the strengths. *)
Theorem performance_weakest_and_strongest (p : progress_doc) :
  let levels := map (λ kd : string * skill_stats,
                       {| sl_skill := kd.1; sl_mastery_level := mastery_level kd.2;
                          sl_attempts := attempts kd.2 |}) (skills p) in
  let perf := performance_of p in
  length (weaknesses perf) = min 3 (length (skills p))
  ∧ length (strengths perf) = min 3 (length (skills p))
  ∧ (∃ rest, levels ≡ₚ weaknesses perf ++ rest
             ∧ ∀ w x, w ∈ weaknesses perf → x ∈ rest →
                      (sl_mastery_level w <= sl_mastery_level x)%Q)
  ∧ (∃ rest, levels ≡ₚ rest ++ strengths perf
             ∧ ∀ x s, x ∈ rest → s ∈ strengths perf →
                      (sl_mastery_level x <= sl_mastery_level s)%Q).
Proof.
  intros levels perf. unfold perf.
  destruct (performance_of_cut p) as (Hw & Hs & Hlen). fold levels in Hw, Hs, Hlen.
  set (sorted := stable_sort skill_level_leb levels) in *.
  assert (Hsorted : StronglySorted (λ a b, skill_level_leb a b = true) sorted).
  { apply stable_sort_StronglySorted;
      [exact skill_level_leb_total|exact skill_level_leb_trans]. }
  assert (Hperm : levels ≡ₚ sorted).
  { symmetry. apply stable_sort_Permutation. }
  rewrite Hw, Hs. split; [|split; [|split]].
  - rewrite length_take. lia.
  - rewrite length_drop. lia.
  - exists (drop 3 sorted). split; [rewrite take_drop; exact Hperm|].
    intros w x Hw' Hx. apply Qle_bool_iff.
    rewrite <- (take_drop 3 sorted) in Hsorted.
    exact (StronglySorted_app_1_elem_of _ _ _ _ _ Hsorted Hw' Hx).
  - exists (take (length sorted - 3) sorted). split; [rewrite take_drop; exact Hperm|].
    intros x s Hx Hs'. apply Qle_bool_iff.
    rewrite <- (take_drop (length sorted - 3) sorted) in Hsorted.
    exact (StronglySorted_app_1_elem_of _ _ _ _ _ Hsorted Hx Hs').
Qed.



Section Performance.
Context `{Builtins}.


End Performance.


(** ** What the recommendation engine never returns *)

Lemma ne_match_oid (fv : option value) (ops : list operator) (o : string) :
  cond_match fv (Ops ops) = true → Q_ne (VOid o) ∈ ops → fv ≠ Some (VOid o).
Proof.
  simpl. rewrite forallb_forall. intros Hall Hop ->.
  specialize (Hall (Q_ne (VOid o))). rewrite <- list_elem_of_In in Hall.
  specialize (Hall Hop). simpl in Hall. rewrite eq_match_oid in Hall. discriminate.
Qed.

Lemma matches_refuted (q : query_doc) (d : document) (k : string) (c : condition) :
  q !! k = Some c → cond_match (d !! k) c = false → matches q d = false.
Proof.
  intros Hk Hc. destruct (matches q d) eqn:E; [|reflexivity].
  rewrite (matches_lookup q d k c E Hk) in Hc. discriminate.
Qed.

Lemma falsy_found (d : document) (i : value) : d !! "_id" = Some i → falsy (Some d) = false.
Proof.
  intros Hi. unfold falsy. apply Nat.eqb_neq. intros Hsz.
  apply map_size_empty_inv in Hsz. subst d. rewrite lookup_empty in Hi. discriminate.
Qed.

Section Recommendation.
Context `{Builtins}.

(** The [_id] condition of the two filters: the current question is
    always excluded; the completed ones are excluded by the fallback
    and by the branch of a correct answer. *)
Lemma excluding_ops (progress : progress_doc) (o : string) (ops : list operator) :
  (if decide (completed_questions progress = []) then Some [Q_ne (VOid o)]
   else ids ← object_ids (completed_questions progress);
        Some [Q_ne (VOid o); Q_nin ids]) = Some ops →
  Q_ne (VOid o) ∈ ops
  ∧ ∀ c o', c ∈ completed_questions progress → ObjectId c = Some o' →
            ∃ ids, Q_nin ids ∈ ops ∧ VOid o' ∈ ids.
Proof.
  destruct (decide (completed_questions progress = [])) as [He|Hne].
  - intros [= <-]. split; [left|]. intros c o' Hc. rewrite He in Hc. inversion Hc.
  - destruct (object_ids (completed_questions progress)) as [ids|] eqn:Hids; [|discriminate].
    simpl. intros [= <-]. split; [left|]. intros c o' Hc Ho. exists ids.
    split; [right; left|]. exact (object_ids_elem _ _ _ _ Hids Hc Ho).
Qed.

Lemma basic_query_id (progress : progress_doc) (o : string) (query : query_doc) :
  basic_query progress o = Some query →
  ∃ ops, query !! "_id" = Some (Ops ops)
         ∧ Q_ne (VOid o) ∈ ops
         ∧ ∀ c o', c ∈ completed_questions progress → ObjectId c = Some o' →
                   ∃ ids, Q_nin ids ∈ ops ∧ VOid o' ∈ ids.
Proof.
  unfold basic_query.
  destruct (if decide (completed_questions progress = []) then _ else _) as [ops|] eqn:E;
    [|discriminate].
  simpl. intros [= <-]. exists ops. split; [apply lookup_singleton_eq|].
  apply excluding_ops. exact E.
Qed.

Lemma recommendation_query_id (question : document) (progress : progress_doc)
    (o : string) (ok : bool) (query : query_doc) :
  recommendation_query question progress o ok = Some query →
  ∃ ops, query !! "_id" = Some (Ops ops)
         ∧ Q_ne (VOid o) ∈ ops
         ∧ (ok = true →
            ∀ c o', c ∈ completed_questions progress → ObjectId c = Some o' →
                    ∃ ids, Q_nin ids ∈ ops ∧ VOid o' ∈ ids).
Proof.
  destruct ok.
  - unfold recommendation_query.
    destruct (if decide (completed_questions progress = []) then _ else _) as [ops|] eqn:E;
      [|discriminate].
    simpl. intros [= <-]. exists ops. split.
    { rewrite !lookup_insert_ne by discriminate. apply lookup_insert_eq. }
    destruct (excluding_ops _ _ _ E) as [Hne Hnin]. split; [exact Hne|]. intros _. exact Hnin.
  - intros Hq. exists [Q_ne (VOid o)]. split.
    { apply (incorrect_branch_ignores_progress question progress o query Hq). }
    split; [left|discriminate].
Qed.

(** A document selected by a filter whose [_id] condition is [ops]. *)
Lemma selected_excludes (coll : list document) (query : query_doc) (ops : list operator)
    (d : document) :
  query !! "_id" = Some (Ops ops) →
  find_one coll query = Some d →
  d ∈ coll
  ∧ (∀ o, Q_ne (VOid o) ∈ ops → d !! "_id" ≠ Some (VOid o))
  ∧ (∀ ids o, Q_nin ids ∈ ops → VOid o ∈ ids → d !! "_id" ≠ Some (VOid o)).
Proof.
  intros Hq Hf. apply find_one_elem in Hf. destruct Hf as [Hin Hm].
  pose proof (matches_lookup _ _ _ _ Hm Hq) as Hc. split; [exact Hin|]. split.
  - intros o Ho. apply (ne_match_oid _ _ _ Hc Ho).
  - intros ids o Hids Ho. apply (nin_match_oid _ _ _ _ Hc Hids Ho).
Qed.

(** [recommend_next_question] written out over the store it is given. *)
Lemma recommend_next_question_run (user_id current uid o : string) (r : result)
    (db : database) :
  ObjectId user_id = Some uid →
  ObjectId current = Some o →
  falsy (get_question_by_id db current) = false →
  recommend_next_question user_id current r db =
    let db1 := (get_user_progress user_id db).1 in
    let question := default ∅ (get_question_by_id db current) in
    let progress := progress_of db uid in
    match recommendation_query question progress o (is_correct r) with
    | None => (db1, None)
    | Some query =>
      let first := find_one (questions db) query in
      match (if falsy first
             then (λ basic, find_one (questions db) basic) <$> basic_query progress o
             else Some first) with
      | None => (db1, None)
      | Some chosen =>
        if falsy chosen then (db1, Some None) else
        match default ∅ chosen !! "_id" with
        | Some id => (db1, Some (Some (py_str id)))
        | None => (db1, None)
        end
      end
    end.
Proof.
  intros Hu Ho Hfq. unfold recommend_next_question. unfold_call.
  rewrite Hfq.
  destruct (get_user_progress_stored user_id uid db Hu)
    as (db1 & Hrun & _ & _ & Hqs & _).
  rewrite Hrun. cbv beta iota zeta. rewrite Ho. cbv beta iota. cbn [fst].
  destruct (recommendation_query _ _ o (is_correct r)) as [query|]; cbv beta iota;
    [|reflexivity].
  rewrite !Hqs.
  destruct (falsy (find_one (questions db) query)) eqn:Hf1; cbv beta iota.
  - destruct (basic_query (progress_of db uid) o) as [basic|]; cbv beta iota;
      [|reflexivity].
    rewrite !Hqs. cbn [fmap option_fmap option_map].
    destruct (falsy (find_one (questions db) basic)); cbv beta iota; [reflexivity|].
    destruct (default ∅ (find_one (questions db) basic) !! "_id"); reflexivity.
  - rewrite Hf1. cbv beta iota.
    destruct (default ∅ (find_one (questions db) query) !! "_id"); reflexivity.
Qed.

(** X16. A recommended id is the printed [_id] of a catalog question
    that is not the question just answered; after a correct answer it
    is not the id of a completed question either. *)
Theorem recommend_next_question_excludes (user_id current next : string) (r : result)
    (db db' : database) :
  recommend_next_question user_id current r db = (db', Some (Some next)) →
  ∃ uid o q id,
    ObjectId user_id = Some uid
    ∧ ObjectId current = Some o
    ∧ q ∈ questions db
    ∧ q !! "_id" = Some id
    ∧ next = py_str id
    ∧ id ≠ VOid o
    ∧ (is_correct r = true →
       ∀ c o', c ∈ completed_questions (progress_of db uid) → ObjectId c = Some o' →
               id ≠ VOid o').
Proof.
  intros Hrec.
  destruct (falsy (get_question_by_id db current)) eqn:Hfq.
  { revert Hrec. unfold recommend_next_question. unfold_call. rewrite Hfq. discriminate. }
  destruct (ObjectId user_id) as [uid|] eqn:Hu.
  2: { revert Hrec. unfold recommend_next_question. unfold_call. rewrite Hfq.
       rewrite (get_user_progress_malformed user_id db Hu). discriminate. }
  destruct (ObjectId current) as [o|] eqn:Ho.
  2: { revert Hfq. unfold get_question_by_id. rewrite Ho. discriminate. }
  rewrite (recommend_next_question_run _ _ _ _ _ _ Hu Ho Hfq) in Hrec.
  cbv zeta in Hrec.
  set (question := default ∅ (get_question_by_id db current)) in *.
  set (progress := progress_of db uid) in *.
  destruct (recommendation_query question progress o (is_correct r)) as [query|] eqn:Hquery;
    [|discriminate].
  destruct (recommendation_query_id _ _ _ _ _ Hquery) as (ops & Hid & Hne & Hnin).
  assert (Hfinal : ∀ (d : document) (ops' : list operator) (query' : query_doc),
    query' !! "_id" = Some (Ops ops') →
    Q_ne (VOid o) ∈ ops' →
    (is_correct r = true →
     ∀ c o', c ∈ completed_questions progress → ObjectId c = Some o' →
             ∃ ids, Q_nin ids ∈ ops' ∧ VOid o' ∈ ids) →
    find_one (questions db) query' = Some d →
    d !! "_id" = Some (default VNull (d !! "_id")) →
    next = py_str (default VNull (d !! "_id")) →
    ∃ uid0 o0 q id,
      Some uid = Some uid0 ∧ Some o = Some o0 ∧ q ∈ questions db ∧ q !! "_id" = Some id
      ∧ next = py_str id ∧ id ≠ VOid o0
      ∧ (is_correct r = true →
         ∀ c o', c ∈ completed_questions (progress_of db uid0) → ObjectId c = Some o' →
                 id ≠ VOid o')).
  { intros d ops' query' Hid' Hne' Hnin' Hfind Hdid Hnext.
    destruct (selected_excludes _ _ _ _ Hid' Hfind) as (Hin & Hex1 & Hex2).
    exists uid, o, d, (default VNull (d !! "_id")).
    repeat (split; [assumption || reflexivity|]). split.
    - intros E. rewrite E in Hdid. exact (Hex1 o Hne' Hdid).
    - intros Hok c o' Hc Ho' E. rewrite E in Hdid.
      destruct (Hnin' Hok c o' Hc Ho') as (ids & Hids & Hino).
      exact (Hex2 ids o' Hids Hino Hdid). }
  destruct (falsy (find_one (questions db) query)) eqn:Hf1.
  - destruct (basic_query progress o) as [basic|] eqn:Hbasic; [|discriminate].
    destruct (basic_query_id _ _ _ Hbasic) as (ops' & Hid' & Hne' & Hnin').
    cbn [fmap option_fmap option_map] in Hrec.
    destruct (find_one (questions db) basic) as [d'|] eqn:Hfind'; [|discriminate].
    destruct (falsy (Some d')); [discriminate|]. cbn [default id] in Hrec.
    destruct (d' !! "_id") as [id|] eqn:Hdid; [|discriminate].
    injection Hrec as _ <-.
    apply (Hfinal d' ops' basic Hid' Hne'); [intros _; exact Hnin'|exact Hfind'| |];
      rewrite Hdid; reflexivity.
  - destruct (find_one (questions db) query) as [d|] eqn:Hfind; [|discriminate].
    rewrite Hf1 in Hrec. cbn [default id] in Hrec.
    destruct (d !! "_id") as [id|] eqn:Hdid; [|discriminate].
    injection Hrec as _ <-.
    apply (Hfinal d ops query Hid Hne Hnin Hfind); rewrite Hdid; reflexivity.
Qed.

End Recommendation.

Lemma recommend_next_question_excludes_witness :
  ∃ q id,
    q ∈ Samples.catalog
    ∧ q !! "_id" = Some id
    ∧ "64b000000000000000000011" = py_str id
    ∧ id ≠ VOid "64b000000000000000000010".
Proof.
  destruct (recommend_next_question_excludes Samples.learner "64b000000000000000000010"
              "64b000000000000000000011" Samples.correct_result
              (fresh_db Samples.catalog)
              (recommend_next_question Samples.learner "64b000000000000000000010"
                 Samples.correct_result (fresh_db Samples.catalog)).1)
    as (uid & o & q & id & Hu & Ho & Hq & Hid & Hnext & Hne & _).
  - vm_compute. reflexivity.
  - exists q, id. split; [exact Hq|]. split; [exact Hid|]. split; [exact Hnext|].
    intros E. apply Hne. rewrite E. f_equal.
    revert Ho. vm_compute. intros [= <-]. reflexivity.
Defined.

Lemma ops_refuted (fv : option value) (ops : list operator) (op : operator) :
  op ∈ ops → op_match fv op = false → cond_match fv (Ops ops) = false.
Proof.
  intros Hin Hop. simpl. destruct (forallb (op_match fv) ops) eqn:E; [|reflexivity].
  rewrite forallb_forall in E. rewrite (E op) in Hop; [discriminate|].
  apply list_elem_of_In. exact Hin.
Qed.

Lemma in_match_oid (o : string) (ids : list value) :
  VOid o ∈ ids → in_match (Some (VOid o)) ids = true.
Proof.
  intros Hin. unfold in_match. apply existsb_exists. exists (VOid o).
  split; [apply list_elem_of_In, Hin|apply eq_match_oid].
Qed.

Section Exhausted.
Context `{Builtins}.

(** A filter whose [_id] condition excludes the current and the
    completed questions selects nothing from a catalog that holds no
    other question. *)
Lemma nothing_left (coll : list document) (query : query_doc) (ops : list operator)
    (progress : progress_doc) (o : string) :
  query !! "_id" = Some (Ops ops) →
  Q_ne (VOid o) ∈ ops →
  (∀ c o', c ∈ completed_questions progress → ObjectId c = Some o' →
           ∃ ids, Q_nin ids ∈ ops ∧ VOid o' ∈ ids) →
  (∀ q, q ∈ coll →
        q !! "_id" = Some (VOid o)
        ∨ ∃ c o', c ∈ completed_questions progress ∧ ObjectId c = Some o'
                  ∧ q !! "_id" = Some (VOid o')) →
  find_one coll query = None.
Proof.
  intros Hid Hne Hnin Hall. apply find_one_None. intros d Hd.
  apply (matches_refuted query d "_id" (Ops ops) Hid).
  destruct (Hall d Hd) as [Hcur|(c & o' & Hc & Ho' & Hdone)].
  - rewrite Hcur. apply (ops_refuted _ _ _ Hne). simpl. rewrite eq_match_oid. reflexivity.
  - rewrite Hdone. destruct (Hnin c o' Hc Ho') as (ids & Hids & Hino).
    apply (ops_refuted _ _ _ Hids). simpl. rewrite (in_match_oid _ _ Hino). reflexivity.
Qed.

(** X17. When the id of the answered question is malformed or names
    no stored question, no id is recommended and nothing is written, not
    even the user's progress document.  After a correct answer, when
    every catalog question is the answered one or a completed one, no id
    is recommended either, and nobody's progress changes. *)
Theorem recommend_next_question_none (user_id current : string) (r : result)
    (db : database) :
  (get_question_by_id db current = None →
   recommend_next_question user_id current r db = (db, Some None))
  ∧ (∀ uid o question,
       ObjectId user_id = Some uid →
       ObjectId current = Some o →
       get_question_by_id db current = Some question →
       is_correct r = true →
       (∀ c, c ∈ completed_questions (progress_of db uid) → is_Some (ObjectId c)) →
       (∀ q, q ∈ questions db →
             q !! "_id" = Some (VOid o)
             ∨ ∃ c o', c ∈ completed_questions (progress_of db uid)
                       ∧ ObjectId c = Some o' ∧ q !! "_id" = Some (VOid o')) →
       ∃ db', recommend_next_question user_id current r db = (db', Some None)
              ∧ ∀ u, progress_of db' u = progress_of db u).
Proof.
  split.
  - intros Hq. unfold recommend_next_question. unfold_call. rewrite Hq. reflexivity.
  - intros uid o question Hu Ho Hq Hok Hparse Hall.
    destruct (get_question_by_id_Some db current question Hq) as (_ & o1 & Ho1 & Hidq).
    assert (Hfq : falsy (get_question_by_id db current) = false).
    { rewrite Hq. destruct Hidq as [Hidq|(l & Hidq & _)]; eapply falsy_found; exact Hidq. }
    destruct (get_user_progress_stored user_id uid db Hu)
      as (db1 & Hrun & Hsame & _).
    exists db1. split; [|exact Hsame].
    rewrite (recommend_next_question_run _ _ _ _ _ _ Hu Ho Hfq). cbv zeta.
    rewrite Hrun. cbn [fst]. rewrite Hok.
    destruct (object_ids_total _ Hparse) as [ids Hids].
    destruct (recommendation_query (default ∅ (get_question_by_id db current))
                (progress_of db uid) o true) as [query|] eqn:Hquery.
    2: { revert Hquery. unfold recommendation_query. rewrite Hids.
         destruct (decide (completed_questions (progress_of db uid) = [])); discriminate. }
    destruct (recommendation_query_id _ _ _ _ _ Hquery) as (ops & Hid & Hne & Hnin).
    rewrite (nothing_left _ _ _ _ _ Hid Hne (Hnin eq_refl) Hall). cbn [falsy].
    destruct (basic_query (progress_of db uid) o) as [basic|] eqn:Hbasic.
    2: { revert Hbasic. unfold basic_query. rewrite Hids.
         destruct (decide (completed_questions (progress_of db uid) = [])); discriminate. }
    destruct (basic_query_id _ _ _ Hbasic) as (ops' & Hid' & Hne' & Hnin').
    cbn [fmap option_fmap option_map].
    rewrite (nothing_left _ _ _ _ _ Hid' Hne' Hnin' Hall). reflexivity.
Qed.

End Exhausted.

Lemma recommend_next_question_none_witness :
  ∃ db', recommend_next_question Samples.learner "64b000000000000000000003"
           Samples.correct_result (fresh_db [Samples.fractions_question])
         = (db', Some None)
         ∧ ∀ u, progress_of db' u = progress_of (fresh_db [Samples.fractions_question]) u.
Proof.
  apply (proj2 (recommend_next_question_none Samples.learner "64b000000000000000000003"
                  Samples.correct_result (fresh_db [Samples.fractions_question]))
               Samples.learner "64b000000000000000000003" Samples.fractions_question).
  - vm_compute. reflexivity.
  - vm_compute. reflexivity.
  - vm_compute. reflexivity.
  - reflexivity.
  - intros c Hc. inversion Hc.
  - apply (proj1 (Forall_forall
             (λ q : document,
                q !! "_id" = Some (VOid "64b000000000000000000003")
                ∨ ∃ c o', c ∈ completed_questions
                                (progress_of (fresh_db [Samples.fractions_question])
                                             Samples.learner)
                          ∧ ObjectId c = Some o' ∧ q !! "_id" = Some (VOid o')) _)).
    constructor; [left; vm_compute; reflexivity|constructor].
Defined.

(** ** More on the question selector *)

Lemma find_nothing (coll : list document) (query : query_doc) (vs : list value) :
  query !! "_id" = Some (Ops [Q_nin vs]) →
  (∀ d, d ∈ coll → ∃ o, d !! "_id" = Some (VOid o) ∧ VOid o ∈ vs) →
  find coll query = [].
Proof.
  intros Hid Hall. apply head_None. apply find_one_None. intros d Hd.
  apply (matches_refuted query d "_id" _ Hid).
  destruct (Hall d Hd) as (o & Hdo & Hin). rewrite Hdo.
  apply (ops_refuted _ _ (Q_nin vs)); [left|]. simpl.
  rewrite (in_match_oid _ _ Hin). reflexivity.
Qed.

Section Selector_more.
Context `{Builtins}.

Lemma get_next_questions_subset (db : database) (user_id : string) (count : nat)
    (difficulty subject topic : option string) (user_progress : option progress_doc)
    (qs : list document) :
  get_next_questions db user_id count difficulty subject topic user_progress = Some qs →
  ∀ q, q ∈ qs → q ∈ questions db.
Proof.
  unfold get_next_questions.
  destruct (match user_progress with
            | Some p => _
            | None => _
            end) as [query1|]; [|discriminate].
  cbn [mbind option_bind].
  set (q2 := match user_progress with Some p => _ | None => query1 end).
  set (s1 := limit count (sort_by_priority (find (questions db) q2))).
  assert (Hin1 : ∀ d, d ∈ s1 → d ∈ questions db).
  { intros d Hd. apply limit_elem, stable_sort_elem, find_elem in Hd. tauto. }
  set (s2 := limit (count - length s1)
                   (sort_by_priority (find (questions db) (delete "topic" q2)))).
  assert (Hin2 : ∀ d, d ∈ s2 → d ∈ questions db).
  { intros d Hd. apply limit_elem, stable_sort_elem, find_elem in Hd. tauto. }
  assert (Hstage3 : ∀ s : list document, (∀ d, d ∈ s → d ∈ questions db) →
    (if (length s <? count)%nat then
       mapM (λ q : document, q !! "_id") s ≫= λ existing_ids : list value,
         match user_progress with
         | Some p => object_ids (completed_questions p) ≫= λ ids, Some (existing_ids ++ ids)
         | None => Some existing_ids
         end ≫= λ nin,
           Some (s ++ limit (count - length s)
                        (find (questions db) {["_id" := Ops [Q_nin nin]]}))
     else Some s) = Some qs →
    ∀ q, q ∈ qs → q ∈ questions db).
  { intros s Hs. destruct (length s <? count)%nat.
    - destruct (mapM _ s) as [existing|]; [|discriminate]. cbn [mbind option_bind].
      destruct (match user_progress with
                | Some p =>
                  object_ids (completed_questions p) ≫= λ ids, Some (existing ++ ids)
                | None => Some existing
                end) as [nin|]; [|discriminate].
      cbn [mbind option_bind]. intros [= <-] q Hq.
      apply elem_of_app in Hq. destruct Hq as [Hq|Hq]; [apply Hs, Hq|].
      apply limit_elem, find_elem in Hq. tauto.
    - intros [= <-]. exact Hs. }
  destruct (length s1 <? count)%nat.
  - destruct (decide (is_Some (q2 !! "topic"))).
    + apply Hstage3. intros d Hd. apply elem_of_app in Hd.
      destruct Hd; [apply Hin1|apply Hin2]; assumption.
    + apply Hstage3, Hin1.
  - apply Hstage3, Hin1.
Qed.

Lemma get_next_questions_all_completed (db : database) (user_id : string) (count : nat)
    (difficulty subject topic : option string) (p : progress_doc) :
  (∀ c, c ∈ completed_questions p → is_Some (ObjectId c)) →
  (∀ q, q ∈ questions db →
        ∃ c o, c ∈ completed_questions p ∧ ObjectId c = Some o
               ∧ q !! "_id" = Some (VOid o)) →
  get_next_questions db user_id count difficulty subject topic (Some p) = Some [].
Proof.
  intros Hparse Hall. unfold get_next_questions.
  destruct (object_ids_total _ Hparse) as [ids Hids]. rewrite Hids.
  cbn [mbind option_bind].
  assert (Hdone : ∀ vs d, d ∈ questions db →
                          ∃ o, d !! "_id" = Some (VOid o) ∧ VOid o ∈ vs ++ ids).
  { intros vs d Hd. destruct (Hall d Hd) as (c & o & Hc & Ho & Hid).
    exists o. split; [exact Hid|]. apply elem_of_app. right.
    exact (object_ids_elem _ _ _ _ Hids Hc Ho). }
  set (q1 := <["_id" := Ops [Q_nin ids]]> _).
  set (q2 := match stable_sort mastery_leb (skills p) with
             | [] => q1
             | (weakest_skill, _) :: _ => <["skills" := Is (VStr weakest_skill)]> q1
             end).
  assert (Hq2 : q2 !! "_id" = Some (Ops [Q_nin ids])).
  { unfold q2. destruct (stable_sort mastery_leb (skills p)) as [|[w ?] ?].
    - apply lookup_insert_eq.
    - rewrite lookup_insert_ne by discriminate. apply lookup_insert_eq. }
  rewrite (find_nothing (questions db) q2 ids Hq2 (Hdone [])).
  assert (Hq2' : delete "topic" q2 !! "_id" = Some (Ops [Q_nin ids])).
  { rewrite lookup_delete_ne by discriminate. exact Hq2. }
  rewrite (find_nothing (questions db) (delete "topic" q2) ids Hq2' (Hdone [])).
  assert (Hempty : ∀ n, limit n (sort_by_priority []) = []).
  { intros n. unfold limit. apply take_nil. }
  rewrite !Hempty. cbn [length app].
  assert (Hlast :
    (if (length (@nil document) <? count)%nat
     then mapM (λ q : document, q !! "_id") [] ≫= λ existing_ids : list value,
            Some ([] ++ limit (count - length (@nil document))
                          (find (questions db)
                                {["_id" := Ops [Q_nin (existing_ids ++ ids)]]}))
     else Some []) = Some []).
  { destruct (length (@nil document) <? count)%nat; [|reflexivity].
    cbn [mapM mret option_ret mbind option_bind app].
    rewrite (find_nothing (questions db) _ ids (lookup_singleton_eq _ _) (Hdone [])).
    unfold limit. rewrite take_nil. reflexivity. }
  destruct (0 <? count)%nat; [destruct (decide (is_Some (q2 !! "topic")))|]; exact Hlast.
Qed.

(** X18. Every question the selector returns is a document of the
    catalog; and when every catalog question is one the user has
    completed, the selector returns the empty list. *)
Theorem get_next_questions_from_catalog (db : database) (user_id : string) (count : nat)
    (difficulty subject topic : option string) (user_progress : option progress_doc) :
  (∀ qs, get_next_questions db user_id count difficulty subject topic user_progress
         = Some qs →
         ∀ q, q ∈ qs → q ∈ questions db)
  ∧ (∀ p, user_progress = Some p →
          (∀ c, c ∈ completed_questions p → is_Some (ObjectId c)) →
          (∀ q, q ∈ questions db →
                ∃ c o, c ∈ completed_questions p ∧ ObjectId c = Some o
                       ∧ q !! "_id" = Some (VOid o)) →
          get_next_questions db user_id count difficulty subject topic user_progress
          = Some []).
Proof.
  split.
  - apply get_next_questions_subset.
  - intros p ->. apply get_next_questions_all_completed.
Qed.

End Selector_more.

Lemma get_next_questions_from_catalog_witness :
  get_next_questions (fresh_db [Samples.algebra_medium]) Samples.learner 3 None None None
    (Some Samples.one_completed) = Some [].
Proof.
  apply (proj2 (get_next_questions_from_catalog (fresh_db [Samples.algebra_medium])
                  Samples.learner 3 None None None (Some Samples.one_completed))
               Samples.one_completed eq_refl).
  - apply (proj1 (Forall_forall (λ c : string, is_Some (ObjectId c)) _)).
    constructor; [vm_compute; eauto|constructor].
  - apply (proj1 (Forall_forall
             (λ q : document,
                ∃ c o, c ∈ completed_questions Samples.one_completed
                       ∧ ObjectId c = Some o ∧ q !! "_id" = Some (VOid o)) _)).
    constructor; [|constructor].
    exists "64b000000000000000000010", "64b000000000000000000010".
    split; [left|split; vm_compute; reflexivity].
Defined.

(** ** The handlers *)

Section Handlers.
Context `{Builtins}.

Lemma get_next_questions_length (db : database) (user_id : string) (count : nat)
    (difficulty subject topic : option string) (user_progress : option progress_doc)
    (qs : list document) :
  get_next_questions db user_id count difficulty subject topic user_progress = Some qs →
  (length qs ≤ count)%nat.
Proof.
  unfold get_next_questions.
  destruct (match user_progress with
            | Some p => _
            | None => _
            end) as [query1|]; [|discriminate].
  cbn [mbind option_bind].
  set (q2 := match user_progress with Some p => _ | None => query1 end).
  set (s1 := limit count (sort_by_priority (find (questions db) q2))).
  assert (Hl1 : (length s1 ≤ count)%nat) by apply limit_length.
  set (s2 := limit (count - length s1)
                   (sort_by_priority (find (questions db) (delete "topic" q2)))).
  assert (Hl2 : (length s2 ≤ count - length s1)%nat) by apply limit_length.
  assert (Hstage3 : ∀ s : list document, (length s ≤ count)%nat →
    (if (length s <? count)%nat then
       mapM (λ q : document, q !! "_id") s ≫= λ existing_ids : list value,
         match user_progress with
         | Some p => object_ids (completed_questions p) ≫= λ ids, Some (existing_ids ++ ids)
         | None => Some existing_ids
         end ≫= λ nin,
           Some (s ++ limit (count - length s)
                        (find (questions db) {["_id" := Ops [Q_nin nin]]}))
     else Some s) = Some qs →
    (length qs ≤ count)%nat).
  { intros s Hs. destruct (length s <? count)%nat.
    - destruct (mapM _ s) as [existing|]; [|discriminate]. cbn [mbind option_bind].
      destruct (match user_progress with
                | Some p =>
                  object_ids (completed_questions p) ≫= λ ids, Some (existing ++ ids)
                | None => Some existing
                end) as [nin|]; [|discriminate].
      cbn [mbind option_bind]. intros [= <-].
      rewrite List.length_app.
      pose proof (limit_length (count - length s)
                    (find (questions db) {["_id" := Ops [Q_nin nin]]})). lia.
    - intros [= <-]. exact Hs. }
  destruct (length s1 <? count)%nat.
  - destruct (decide (is_Some (q2 !! "topic"))).
    + apply Hstage3. rewrite List.length_app. lia.
    + apply Hstage3, Hl1.
  - apply Hstage3, Hl1.
Qed.

(** X19. [GET /questions/next/{count}] answers 400 and leaves the store
    alone when [count] is outside 1..10; the only error statuses it
    answers are 400 and 404; and a list it answers is non-empty, no
    longer than [count], and made of payloads without [correct_answer]
    and [explanations]. *)
Theorem get_stack_of_questions_answers (user_id : string) (count : Z)
    (difficulty subject topic : option string) (db : database) :
  let out := get_stack_of_questions user_id count difficulty subject topic db in
  ((count < 1 ∨ 10 < count)%Z → out = (db, Some (inr 400%nat)))
  ∧ (∀ s, out.2 = Some (inr s) → s = 400%nat ∨ s = 404%nat)
  ∧ (∀ payloads, out.2 = Some (inl payloads) →
       (1 ≤ count ≤ 10)%Z
       ∧ payloads ≠ []
       ∧ (length payloads ≤ Z.to_nat count)%nat
       ∧ ∀ d, d ∈ payloads →
              d !! "correct_answer" = None ∧ d !! "explanations" = None).
Proof.
  intros out. unfold out, get_stack_of_questions.
  destruct ((count <? 1) || (10 <? count))%Z eqn:E.
  { split; [reflexivity|]. split.
    - intros s [= <-]. left. reflexivity.
    - intros payloads [=]. }
  apply orb_false_iff in E. destruct E as [E1 E2].
  apply Z.ltb_ge in E1. apply Z.ltb_ge in E2.
  split; [lia|]. unfold_call.
  destruct (get_user_progress user_id db) as [db1 [p|]];
    [|split; [intros s [=]|intros payloads [=]]].
  destruct (get_next_questions db1 user_id (Z.to_nat count) difficulty subject topic
              (Some p)) as [qs|] eqn:N;
    [|split; [intros s [=]|intros payloads [=]]].
  apply get_next_questions_length in N.
  destruct qs as [|q qs].
  { split; [intros s [= <-]; right; reflexivity|intros payloads [=]]. }
  destruct (mapM (λ q0 : document, format_question_response (Some q0)) (q :: qs))
    as [formatted|] eqn:F;
    [|split; [intros s [=]|intros payloads [=]]].
  split; [intros s [=]|]. intros payloads [= <-].
  apply mapM_Some in F. split; [lia|].
  pose proof (Forall2_length _ _ _ F) as Hlen. split; [|split].
  - intros ->. discriminate.
  - rewrite <- Hlen. exact N.
  - intros d Hd. apply list_elem_of_lookup_1 in Hd. destruct Hd as [i Hi].
    destruct (Forall2_lookup_r _ _ _ _ _ F Hi) as (q0 & _ & Hq0).
    exact (format_stripped _ _ Hq0).
Qed.

End Handlers.

Section Submit.
Context `{Builtins}.



End Submit.

Section Snapshot.
Context `{Builtins}.


(** X22. A verdict of the evaluator that is correct carries the
    feedback ["Correct!"] and the question's [points], 10 when it has
    none; a verdict that is incorrect carries the score 0. *)
Theorem evaluate_answer_score (question : document) (user_answer : value) (r : result) :
  evaluate_answer question user_answer = Some r →
  if is_correct r
  then feedback r = VStr "Correct!"
       ∧ score r = default (VInt 10) (question !! "points")
  else score r = VInt 0.
Proof.
  unfold evaluate_answer.
  destruct (py_eq (default (VStr "multiple_choice") (question !! "type"))
                  (VStr "multiple_choice")).
  - destruct (py_eq user_answer (default VNull (question !! "correct_answer"))) eqn:E.
    + intros [= <-]. simpl. rewrite ?E. split; reflexivity.
    + destruct (default (VDoc []) (question !! "explanations")); try discriminate.
      intros [= <-]. simpl. rewrite ?E. reflexivity.
  - destruct (py_eq (default (VStr "multiple_choice") (question !! "type")) (VStr "text")).
    + destruct (default (VStr "") (question !! "correct_answer")); try discriminate.
      destruct (String.eqb _ _) eqn:E.
      * intros [= <-]. simpl. rewrite ?E. split; reflexivity.
      * intros [= <-]. simpl. rewrite ?E. reflexivity.
    + intros [= <-]. reflexivity.
Qed.

End Snapshot.

Lemma evaluate_answer_score_witness :
  feedback Samples.correct_result = VStr "Correct!"
  ∧ score Samples.correct_result = default (VInt 10) (Samples.algebra_medium !! "points").
Proof.
  apply (evaluate_answer_score Samples.algebra_medium (VStr "B") Samples.correct_result).
  vm_compute. reflexivity.
Defined.
